(** * Cascading-flows surrogate posteriors: a shallow embedding

    Source: tensorflow_probability/python/experimental/vi/cascading_flows.py

    The file builds, from a prior written as a generator of distributions,
    a surrogate generator of trainable distributions.  Distributions and
    bijectors are library objects; they are embedded here as the syntax
    trees of the constructor calls the source makes, so that the structure
    the source assembles can be inspected.  Python exceptions are values of
    [exn]; object identity of the trainable parameter sets is an explicit
    allocation counter threaded through the code. *)

From Stdlib Require Import ZArith List String QArith Bool Lia Arith.
Import ListNotations.
Open Scope string_scope.
Open Scope list_scope.
Open Scope Z_scope.

Set Implicit Arguments.
Set Warnings "-register-all".

(** ** Values, errors *)

(** A sampled value.  A tensor keeps its static shape (the source reads
    [.shape] and squeezes axes); its content is an opaque payload.
    [PyList] is a Python [list] (what a [Split] bijector produces),
    [StructTuple] the structure a joint distribution samples. *)
Inductive value : Type :=
| Tensor (shape : list Z) (payload : nat)
| PyList (items : list value)
| StructTuple (items : list value).

(** The Python exceptions the source can raise or let through. *)
Inductive exn : Type :=
| RuntimeError          (* a generator body let StopIteration escape *)
| UnboundLocalError     (* a local name read before any assignment *)
| TypeError
| IndexError
| AttributeError
| ValueError            (* unpacking a yielded object that is not a pair;
                           a library constructor refusing its arguments *)
| InvalidArgumentError  (* tf.squeeze on an axis whose size is not 1;
                           an operation on tensors of two integer types *)
| RecursionError.

Inductive result (A : Type) : Type :=
| Ok (a : A)
| Raise (e : exn).
Arguments Raise {A} e.

(** A seed is a Python [int] or [None]. *)
Definition seed : Type := option Z.

(** Shape tensors hold 32-bit integers: [int32 z] is [z] wrapped into the
    range from [-2^31] up to, not including, [2^31]. *)
Definition int32 (z : Z) : Z :=
  (z + 2147483648) mod 4294967296 - 2147483648.

Definition fits_int32 (z : Z) : bool :=
  (-2147483648 <=? z) && (z <? 2147483648).

(** ** Prior distributions and model programs *)

(** Parameters of a distribution are tensor expressions over sampled values. *)
Inductive tensor_expr : Type :=
| TConst (q : Q)
| TValue (v : value)
| TMul (a b : tensor_expr)
| TSub (a b : tensor_expr)
| TOnesLike (a : tensor_expr)
| TMean (cls_name : string) (params : list (string * tensor_expr)).

Inductive dist_class : Type :=
| Normal_cls | HalfNormal_cls | TruncatedNormal_cls | Uniform_cls | Beta_cls
| Exponential_cls | Gamma_cls | Chi2_cls
| TransformedDistribution_cls
| JointDistributionCoroutine_cls | JointDistributionCoroutineAutoBatched_cls
| Other_cls (name : string).

Inductive affine : Type :=
| Shift (shift : tensor_expr)
| Scale (scale : tensor_expr).

(** A distribution of the prior: a leaf of some family, a leaf pushed
    through shift/scale bijectors (what the default Uniform substitution
    builds), or a joint distribution, which owns a model coroutine.

    A model coroutine ([program]) is a generator: it either finishes
    ([Stop], the [StopIteration] of the source) or yields a node, tagged
    [Root] or not, and waits for the value to be sent back. *)
Inductive distribution : Type :=
| Leaf (cls : dist_class) (name : string) (event_shape : list Z)
       (params : list (string * tensor_expr))
| Bijected (b : affine) (name : string) (d : distribution)
| Joint (use_vectorized_map : bool) (name : string) (model_coroutine : program)
with program : Type :=
| Stop
| Yield (is_root : bool) (d : distribution) (send : value -> program).

(** [hasattr(dist, '_model_coroutine')] *)
Definition has_model_coroutine (d : distribution) : bool :=
  match d with Joint _ _ _ => true | _ => false end.

Definition class_of (d : distribution) : dist_class :=
  match d with
  | Leaf c _ _ _ => c
  | Bijected _ _ _ => TransformedDistribution_cls
  | Joint true _ _ => JointDistributionCoroutineAutoBatched_cls
  | Joint false _ _ => JointDistributionCoroutine_cls
  end.

(** [_get_name]: the short name of a distribution. *)
Definition _get_name (d : distribution) : string :=
  match d with
  | Leaf _ n _ _ => n
  | Bijected _ n _ => n
  | Joint _ n _ => n
  end.

(** [_set_name]: a copy of the distribution under another name. *)
Definition _set_name (d : distribution) (name : string) : distribution :=
  match d with
  | Leaf c _ es ps => Leaf c name es ps
  | Bijected b _ d' => Bijected b name d'
  | Joint v _ m => Joint v name m
  end.

(** [dist.event_shape_tensor()] of a distribution that is not joint: a
    tensor of 32-bit integers. *)
Fixpoint event_shape_tensor (d : distribution) : option (list Z) :=
  match d with
  | Leaf _ _ es _ => Some (map int32 es)
  | Bijected _ _ d' => event_shape_tensor d'
  | Joint _ _ _ => None
  end.

(** The placeholder a joint distribution is traced with when its static
    structure is asked for. *)
Definition placeholder : value := Tensor [] 0%nat.

Fixpoint traced_length (p : program) : nat :=
  match p with
  | Stop => 0%nat
  | Yield _ _ k => S (traced_length (k placeholder))
  end.

(** [len(dist.event_shape)]: the rank of a leaf's event, the number of
    slots of a joint distribution's structure. *)
Fixpoint event_shape_len (d : distribution) : nat :=
  match d with
  | Leaf _ _ es _ => List.length es
  | Bijected _ _ d' => event_shape_len d'
  | Joint _ _ m => traced_length m
  end.

Definition param (name : string) (d : distribution) : tensor_expr :=
  match d with
  | Leaf _ _ _ ps =>
      match find (fun p => String.eqb (fst p) name) ps with
      | Some p => snd p
      | None => TConst 0
      end
  | _ => TConst 0
  end.

(** ** The substitution registry *)

(** Conditions are Python callables, used as dictionary keys: they hash
    and compare by object identity.  An identity is either that of a
    lambda created by [register_cf_substitution_rule] (numbered in
    creation order) or that of a callable of the caller's. *)
Inductive obj_id : Type :=
| LambdaObj (serial : nat)
| UserObj (n : nat).

Definition obj_id_eqb (a b : obj_id) : bool :=
  match a, b with
  | LambdaObj m, LambdaObj n => Nat.eqb m n
  | UserObj m, UserObj n => Nat.eqb m n
  | _, _ => false
  end.

Record callable : Type := mk_callable {
  identity : obj_id;
  call : distribution -> bool
}.

(** What a caller passes as [condition]: a class or a callable. *)
Inductive condition_arg : Type :=
| CondClass (cls : dist_class)
| CondCallable (c : callable).

Definition rule : Type := (callable * (distribution -> distribution))%type.

(** The module-level dictionary [ASVI_SURROGATE_SUBSTITUTIONS] together
    with the number of lambdas created so far.  A Python [dict] iterates
    in insertion order; assigning to a key that is present replaces its
    value where it stands. *)
Record registry : Type := mk_registry {
  lambdas_created : nat;
  ASVI_SURROGATE_SUBSTITUTIONS : list rule
}.

Fixpoint dict_set (key : callable) (v : distribution -> distribution)
         (items : list rule) : list rule :=
  match items with
  | [] => [(key, v)]
  | (k, w) :: rest =>
      if obj_id_eqb (identity k) (identity key)
      then (k, v) :: rest
      else (k, w) :: dict_set key v rest
  end.

Definition dict_mem (key : obj_id) (items : list rule) : bool :=
  existsb (fun r => obj_id_eqb (identity (fst r)) key) items.

Section Registry.

  (** [issubclass] of the distribution library: [isinstance(d, cls)] is
      [issubclass (class_of d) cls]. *)
Variable issubclass : dist_class -> dist_class -> bool.

Definition isinstance (d : distribution) (cls : dist_class) : bool :=
    issubclass (class_of d) cls.

  (** [_as_substituted_distribution] *)
Definition _as_substituted_distribution (reg : registry)
             (distribution0 : distribution) : distribution :=
    fold_left
      (fun distribution (item : rule) =>
         let (condition, substitution_fn) := item in
         if call condition distribution
         then substitution_fn distribution
         else distribution)
      (ASVI_SURROGATE_SUBSTITUTIONS reg) distribution0.

  (** [register_cf_substitution_rule] *)
Definition register_cf_substitution_rule (condition : condition_arg)
             (substitution_fn : distribution -> distribution)
             (reg : registry) : registry :=
    match condition with
    | CondClass cls =>
        let condition' :=
          mk_callable (LambdaObj (lambdas_created reg))
                      (fun distribution => isinstance distribution cls) in
        mk_registry (S (lambdas_created reg))
                    (dict_set condition' substitution_fn
                              (ASVI_SURROGATE_SUBSTITUTIONS reg))
    | CondCallable c =>
        mk_registry (lambdas_created reg)
                    (dict_set c substitution_fn
                              (ASVI_SURROGATE_SUBSTITUTIONS reg))
    end.

  (** The four rules registered when the module is loaded. *)
Definition half_normal_rule (dist : distribution) : distribution :=
    Leaf TruncatedNormal_cls "TruncatedNormal" []
         [("loc", TConst 0); ("scale", param "scale" dist);
          ("low", TConst 0);
          ("high", TMul (param "scale" dist) (TConst 10))].

Definition uniform_rule (dist : distribution) : distribution :=
    Bijected (Shift (param "low" dist)) "shift"
      (Bijected (Scale (TSub (param "high" dist) (param "low" dist))) "scale"
         (Leaf Beta_cls "Beta" []
            [("concentration0",
              TOnesLike (TMean "Uniform"
                           [("low", param "low" dist);
                            ("high", param "high" dist)]));
             ("concentration1", TConst 1)])).

Definition exponential_rule (dist : distribution) : distribution :=
    Leaf Gamma_cls "Gamma" []
         [("concentration", TConst 1); ("rate", param "rate" dist)].

Definition chi2_rule (dist : distribution) : distribution :=
    Leaf Gamma_cls "Gamma" []
         [("concentration", TMul (TConst (1#2)) (param "df" dist));
          ("rate", TConst (1#2))].

Definition empty_registry : registry := mk_registry 0 [].

Definition initial_registry : registry :=
    register_cf_substitution_rule (CondClass Chi2_cls) chi2_rule
      (register_cf_substitution_rule (CondClass Exponential_cls) exponential_rule
         (register_cf_substitution_rule (CondClass Uniform_cls) uniform_rule
            (register_cf_substitution_rule (CondClass HalfNormal_cls)
               half_normal_rule empty_registry))).

End Registry.

(** ** Bijectors, trainable parameter sets and surrogate distributions *)

Inductive bijector : Type :=
| Reshape (event_shape_out event_shape_in : list Z)
| HighwayFlow (width : Z) (residual_fraction_initial_value : Q)
              (activation_fn : bool) (gate_first_n : Z) (seed0 : seed).

(** [build_highway_flow_layer(width, residual_fraction_initial_value,
    activation_fn, gate_first_n, seed)] *)
Definition build_highway_flow_layer (width : Z)
           (residual_fraction_initial_value : Q) (activation_fn : bool)
           (gate_first_n : Z) (seed0 : seed) : bijector :=
  HighwayFlow width residual_fraction_initial_value activation_fn
              gate_first_n seed0.

(** What the source calls [variables]: for a base distribution the
    [chain.Chain] object holding the trainable layers, for a joint
    distribution the structure of its nodes' [variables].  A [Chain] is a
    Python object: [obj] is its identity, given when it is constructed. *)
Inductive variables : Type :=
| Chain (obj : nat) (bijectors : list bijector)
| VarStruct (items : list variables).

(** The partial application of [_cf_convex_update_for_base_distribution]
    that [build_cf_surrogate_posterior] passes down. *)
Record base_fn : Type := mk_base_fn {
  initial_prior_weight : Q;
  base_num_auxiliary_variables : Z
}.

(** The closure [posterior_generator]: the names it captures from the
    call of [_cf_surrogate_for_joint_distribution] that defined it. *)
Record closure : Type := mk_closure {
  prior_coroutine : program;
  flat_variables : option (list variables);
  num_auxiliary_variables : Z;
  base_distribution_surrogate_fn : base_fn;
  default_seed : seed;
  depth : nat
}.

(** The distributions the source assembles. *)
Inductive surrogate : Type :=
| Prior (d : distribution)
| NormalDist (loc scale : Q)
| Sample (d : surrogate) (sample_shape : Z)
| BatchBroadcast (d : surrogate) (to_shape : list Z)
| Deterministic (loc : value)
| Independent (d : surrogate) (reinterpreted_batch_ndims : Z)
| Blockwise (ds : list surrogate)
| TransformedDistribution (d : surrogate) (bijector0 : variables)
| SplitDistribution (sizes : list Z) (d : surrogate)
| JointDistributionCoroutine (autobatched : bool) (name : string)
                             (model : closure).

(** A node a surrogate generator yields: [Root(d)] or [d]. *)
Record node : Type := mk_node {
  node_is_root : bool;
  node_dist : surrogate
}.

(** What [posterior_generator] yields: the node alone when variables were
    given, the pair [(node, variables)] when it is creating them. *)
Inductive yielded : Type :=
| YNode (n : node)
| YPair (n : node) (vs : variables).

Definition yielded_node (y : yielded) : node :=
  match y with YNode n => n | YPair n _ => n end.

(** ** Effects: object allocation and exceptions *)

(** The number of [Chain] objects constructed so far. *)
Definition heap : Type := nat.

Definition M (A : Type) : Type := heap -> result A * heap.

Definition ret {A} (a : A) : M A := fun h => (Ok a, h).
Definition raise {A} (e : exn) : M A := fun h => (Raise e, h).
Definition bind {A B} (m : M A) (f : A -> M B) : M B :=
  fun h => match m h with
           | (Ok a, h') => f a h'
           | (Raise e, h') => (Raise e, h')
           end.
Definition lift {A} (r : result A) : M A := fun h => (r, h).

(** [chain.Chain(bijectors=bs)]: constructs a new object. *)
Definition new_Chain (bs : list bijector) : M variables :=
  fun h => (Ok (Chain h bs), S h).

Declare Scope monad_scope.
Delimit Scope monad_scope with monad.
Notation "x <- m ;; f" := (bind m (fun x => f))
  (at level 61, m at next level, right associativity) : monad_scope.
Notation "' pat <- m ;; f" := (bind m (fun x => match x with pat => f end))
  (at level 61, pat pattern, m at next level, right associativity) : monad_scope.

(** A running generator of surrogate nodes, observed after [next] or
    [send]: it has returned, raised, or is suspended at a [yield].  The
    heap it carries is the one its step left behind. *)
Inductive generator : Type :=
| GReturn (h : heap)
| GRaise (e : exn) (h : heap)
| GYield (y : yielded) (h : heap) (send : value -> heap -> generator).

(** ** Tensor helpers *)

(** The element-wise sum of a shape tensor and an integer, in 32-bit
    arithmetic: a sum that leaves the range wraps around. *)
Definition shape_sum (es : list Z) (k : Z) : list Z :=
  map (fun d => int32 (d + k)) es.

(** [shape + k] for a shape tensor and a Python [int]: the integer is
    first made a tensor of the same type, which is refused when it does
    not fit 32 bits. *)
Definition shape_add (es : list Z) (k : Z) : result (list Z) :=
  if fits_int32 k then Ok (shape_sum es k) else Raise InvalidArgumentError.

(** [tf.reduce_prod] *)
Definition reduce_prod (es : list Z) : Z := fold_right Z.mul 1 es.

(** What the reshape transform of the invertible-transform library (not
    under src/) accepts as a shape when it is constructed: dimensions
    that are non-negative or [-1], with at most one [-1]. *)
Definition valid_shape (s : list Z) : bool :=
  forallb (fun d => -1 <=? d) s
  && Nat.leb (List.length (filter (fun d => d =? -1) s)) 1.

(** [reshape.Reshape(event_shape_out, event_shape_in)]: the constructor
    checks both shapes and raises [ValueError] on one it does not accept. *)
Definition new_Reshape (event_shape_out event_shape_in : list Z)
  : result bijector :=
  if valid_shape event_shape_out && valid_shape event_shape_in
  then Ok (Reshape event_shape_out event_shape_in)
  else Raise ValueError.

(** [int(t)] on an integer tensor [t]: Python's scalar conversion, which
    is defined for a one-element tensor only. *)
Definition int_of_tensor (t : list Z) : result Z :=
  match t with
  | [n] => Ok n
  | _ => Raise TypeError
  end.

(** [v.shape] *)
Definition shape_of (v : value) : result (list Z) :=
  match v with
  | Tensor s _ => Ok s
  | _ => Raise AttributeError
  end.

(** [tf.squeeze(v, -1)] *)
Definition squeeze_last (v : value) : result value :=
  match v with
  | Tensor s p =>
      match rev s with
      | 1 :: front => Ok (Tensor (rev front) p)
      | _ => Raise InvalidArgumentError
      end
  | _ => Raise InvalidArgumentError
  end.

(** Python truthiness of [variables] and of [flat_variables]. *)
Definition truthy (vs : variables) : bool :=
  match vs with
  | Chain _ _ => true
  | VarStruct [] => false
  | VarStruct (_ :: _) => true
  end.

Definition truthy_flat (fv : option (list variables)) : bool :=
  match fv with
  | Some (_ :: _) => true
  | _ => false
  end.

(** [dist._model_flatten] and [dist._model_unflatten] *)
Definition _model_flatten (vs : variables) : result (list variables) :=
  match vs with
  | VarStruct items => Ok items
  | Chain _ _ => Raise TypeError
  end.

Definition _model_unflatten (items : list variables) : variables :=
  VarStruct items.

(** [flat_variables[i]] *)
Definition getitem (fv : list variables) (i : nat) : result variables :=
  match nth_error fv i with
  | Some v => Ok v
  | None => Raise IndexError
  end.

(** ** The builders *)

Section Builders.

  (** The registry as it stands while surrogates are built. *)
Variable reg : registry.

  (** [samplers.split_seed] and [Distribution.sample] of the library
      (not under src/), each taken as a function of its arguments, as
      the specification describes the seed-splitting utility.  On a
      Python [int] or [None] the library first draws a stateless seed
      from the global generator, so two calls of the builders with the
      same [int] need not see the same seeds: no statement below relies
      on two results being equal, and a statement about two calls of the
      builders takes one pair of functions for each call. *)
Variable split_seed : seed -> seed * seed.
Variable sample : surrogate -> seed -> value.

Local Open Scope monad_scope.

  (** [_cf_convex_update_for_base_distribution].  [sample_shape] is never
      read by the source and is left out. *)
Definition _cf_convex_update_for_base_distribution
             (dist : distribution) (initial_prior_weight0 : Q)
             (num_auxiliary_variables0 : Z)
             (global_auxiliary_variables : option value)
             (variables0 : option variables) (seed0 : seed)
    : M (surrogate * variables) :=
    variables1 <-
      match variables0 with
      | Some v => ret v
      | None =>
          actual_event_shape <-
            lift (match event_shape_tensor dist with
                  | Some es => Ok es
                  | None => Raise AttributeError
                  end) ;;
          int_event_shape <-
            lift (if (0 <? List.length actual_event_shape)%nat
                  then int_of_tensor actual_event_shape
                  else Ok 1) ;;
          let layers := 3%nat in
          (* The source writes the sum
             [actual_event_shape + num_auxiliary_variables] at each of its
             uses; it is the same value each time, computed here once. *)
          extended_shape <-
            lift (shape_add actual_event_shape num_auxiliary_variables0) ;;
          reshape_in <- lift (new_Reshape [-1] extended_shape) ;;
          let bijectors := [reshape_in] in
          let bijectors :=
            fold_left
              (fun bs (_ : nat) =>
                 bs ++ [build_highway_flow_layer
                          (int32 (reduce_prod extended_shape))
                          initial_prior_weight0 true int_event_shape seed0])
              (seq 0 (layers - 1)) bijectors in
          let bijectors :=
            bijectors ++
            [build_highway_flow_layer
               (int32 (reduce_prod extended_shape))
               initial_prior_weight0 false int_event_shape seed0] in
          reshape_out <- lift (new_Reshape extended_shape [-1]) ;;
          let bijectors := bijectors ++ [reshape_out] in
          new_Chain (rev bijectors)
      end ;;
    if 0 <? num_auxiliary_variables0 then
      shape <-
        lift (match global_auxiliary_variables with
              | Some g => shape_of g
              | None => Raise AttributeError
              end) ;;
      match global_auxiliary_variables with
      | Some g =>
          let batch_shape :=
            if (1 <? List.length shape)%nat then firstn 1 shape else [] in
          (* [Independent(Deterministic(g), reinterpreted_batch_ndims=1)]
             needs a batch dimension to reinterpret, which a tensor of
             rank 0 has not; [Blockwise] needs its two parts to have equal
             batch shapes, here [batch_shape] and the shape of [g] without
             its last dimension, which differ from rank 3 on.  Both
             constructors raise [ValueError]. *)
          if (List.length shape =? 0)%nat then raise ValueError
          else if (2 <? List.length shape)%nat then raise ValueError
          else
          ret (SplitDistribution
                 [-1; num_auxiliary_variables0]
                 (TransformedDistribution
                    (Blockwise
                       [BatchBroadcast (Prior dist) batch_shape;
                        Independent (Deterministic g) 1])
                    variables1),
               variables1)
      | None => raise AttributeError
      end
    else
      ret (TransformedDistribution (Prior dist) variables1, variables1).

  (** [_extract_variables_from_coroutine_model] *)
Fixpoint extract_loop (gen : generator) (seed0 : seed)
           (flat_variables0 : list variables)
    : result (list variables) * heap :=
    match gen with
    | GReturn h => (Ok flat_variables0, h)
    | GRaise e h => (Raise e, h)
    | GYield (YNode n) h _ =>
        (Raise (if node_is_root n then ValueError else TypeError), h)
    | GYield (YPair dist dist_variables) h send =>
        let flat_variables1 := flat_variables0 ++ [dist_variables] in
        let (seed1, local_seed) := split_seed seed0 in
        let sampled_value := sample (node_dist dist) local_seed in
        extract_loop (send sampled_value h) seed1 flat_variables1
    end.

Definition _extract_variables_from_coroutine_model
             (model_fn : heap -> generator) (seed0 : seed)
    : M (list variables) :=
    fun h =>
      match model_fn h with
      | GReturn h' => (Raise UnboundLocalError, h')
      | gen => extract_loop gen seed0 []
      end.

Section Walker.

    (** [_cf_surrogate_for_distribution] as [posterior_generator] calls
        it: with the node, the variables slot, the auxiliary value and
        the seed; [num_auxiliary_variables] is left to its default. *)
Variable recur : distribution -> option variables -> option value ->
                     seed -> M (surrogate * variables).

Variable c : closure.

    (** What is sent into the prior generator for a value received. *)
Definition forwarded (value_out : value) (dist : distribution)
      : result value :=
      match value_out with
      | PyList items =>
          match items with
          | [] => Raise IndexError
          | v0 :: _ =>
              if Nat.eqb (event_shape_len dist) 0
              then squeeze_last v0
              else Ok v0
          end
      | _ => Ok value_out
      end.

    (** The [while True] loop of [posterior_generator].  [prior_gen] is
        the prior generator with the node it has just yielded; [Stop] is
        its [StopIteration], which ends the loop.

        [global_auxiliary_variables] is assigned in the body of
        [posterior_generator] (after the auxiliary node is yielded), so it
        is a local name of the generator and not the parameter of the
        enclosing function: it is bound ([Some]) only once that
        assignment has run, and reading it unbound raises
        [UnboundLocalError]. *)
Fixpoint posterior_loop (prior_gen : program) (seed0 : seed) (i : nat)
             (global_auxiliary_variables : option value) (h : heap)
      : generator :=
      match prior_gen with
      | Stop => GReturn h
      | Yield was_root dist send_prior =>
          let (seed1, init_seed) := split_seed seed0 in
          match (match flat_variables c with
                 | Some (v :: fv) =>
                     match getitem (v :: fv) i with
                     | Ok vs => Ok (Some vs)
                     | Raise e => Raise e
                     end
                 | _ => Ok None
                 end) with
          | Raise e => GRaise e h
          | Ok variables_i =>
              match global_auxiliary_variables with
              | None => GRaise UnboundLocalError h
              | Some g =>
                  match recur dist variables_i (Some g) init_seed h with
                  | (Raise e, h') => GRaise e h'
                  | (Ok (surrogate_posterior, variables1), h') =>
                      let n :=
                        mk_node (was_root && (num_auxiliary_variables c =? 0))
                                surrogate_posterior in
                      GYield
                        (if truthy_flat (flat_variables c)
                         then YNode n else YPair n variables1)
                        h'
                        (fun value_out h'' =>
                           match forwarded value_out dist with
                           | Raise e => GRaise e h''
                           | Ok v =>
                               posterior_loop (send_prior v) seed1 (S i)
                                              global_auxiliary_variables h''
                           end)
                  end
              end
          end
      end.

    (** The stack of layers the auxiliary variables are pushed through. *)
Definition auxiliary_bijectors (seed0 : seed) : list bijector :=
      let layers := 3%nat in
      let bijectors :=
        fold_left
          (fun bs (_ : nat) =>
             bs ++ [build_highway_flow_layer (num_auxiliary_variables c)
                                             (1#2) true 0 seed0])
          (seq 0 (layers - 1)) [] in
      bijectors ++
      [build_highway_flow_layer (num_auxiliary_variables c) (1#2) false 0
                                seed0].

    (** [posterior_generator()] up to its first [yield]. *)
Definition posterior_generator (h : heap) : generator :=
      let seed0 := default_seed c in
      match prior_coroutine c with
      | Stop => GRaise RuntimeError h
      | Yield _ _ _ as prior_gen =>
          if 0 <? num_auxiliary_variables c then
            match (match flat_variables c with
                   | Some (v :: _) => ret v
                   | _ => new_Chain (rev (auxiliary_bijectors seed0))
                   end) h with
            | (Raise e, h') => GRaise e h'
            | (Ok variables1, h') =>
                let eps :=
                  TransformedDistribution
                    (Sample (NormalDist 0 (1#10)) (num_auxiliary_variables c))
                    variables1 in
                let eps := mk_node true eps in
                GYield
                  (if truthy_flat (flat_variables c)
                   then YNode eps else YPair eps variables1)
                  h'
                  (fun value_out h'' =>
                     posterior_loop prior_gen seed0 1 (Some value_out) h'')
            end
          else
            posterior_loop prior_gen seed0 0 None h
      end.

End Walker.

  (** [_cf_surrogate_for_joint_distribution].  [recur] and [depth0] stand
      for the recursive calls available to the generator it defines.

      When no variables are given the source runs the generator it has
      just defined to create them and then calls itself with them; that
      call does not pass [seed] on, so the generator of the surrogate it
      returns has [None] for its default seed. *)
Definition _cf_surrogate_for_joint_distribution
             (recur : distribution -> option variables -> option value ->
                      seed -> M (surrogate * variables))
             (depth0 : nat)
             (dist : distribution) (base : base_fn)
             (variables0 : option variables) (num_auxiliary_variables0 : Z)
             (seed0 : seed)
    : M (surrogate * variables) :=
    match dist with
    | Joint use_vectorized_map name prior_coroutine0 =>
        let closure_with fv (seed1 : seed) :=
          mk_closure prior_coroutine0 fv num_auxiliary_variables0 base seed1
                     depth0 in
        let assemble (seed1 : seed) (variables1 : variables)
            : M (surrogate * variables) :=
          fv <- lift (if truthy variables1
                      then match _model_flatten variables1 with
                           | Ok l => Ok (Some l)
                           | Raise e => Raise e
                           end
                      else Ok None) ;;
          ret (JointDistributionCoroutine use_vectorized_map name
                                          (closure_with fv seed1),
               variables1) in
        match variables0 with
        | None =>
            fv <- _extract_variables_from_coroutine_model
                    (posterior_generator recur (closure_with None seed0))
                    seed0 ;;
            assemble None (_model_unflatten fv)
        | Some v => assemble seed0 v
        end
    | _ => raise AttributeError
    end.

  (** [_cf_surrogate_for_distribution].  The recursion of the source goes
      through nodes produced by substitution functions, which are
      arbitrary; [fuel] bounds the depth of Python's call stack. *)
Fixpoint _cf_surrogate_for_distribution (fuel : nat)
           (dist : distribution) (base : base_fn)
           (variables0 : option variables) (num_auxiliary_variables0 : Z)
           (global_auxiliary_variables : option value) (seed0 : seed)
           {struct fuel} : M (surrogate * variables) :=
    match fuel with
    | O => raise RecursionError
    | S fuel' =>
        let dist :=
          _set_name (_as_substituted_distribution reg dist) (_get_name dist) in
        if has_model_coroutine dist then
          _cf_surrogate_for_joint_distribution
            (fun d vs g s => _cf_surrogate_for_distribution fuel' d base vs 0 g s)
            fuel' dist base variables0 num_auxiliary_variables0 seed0
        else
          _cf_convex_update_for_base_distribution
            dist (initial_prior_weight base)
            (base_num_auxiliary_variables base)
            global_auxiliary_variables variables0 seed0
    end.

Definition recursion_limit : nat := 1000.

  (** [build_cf_surrogate_posterior]: the surrogate and the variables it
      tracks ([surrogate_posterior.also_track]). *)
Definition build_cf_surrogate_posterior (prior : distribution)
             (num_auxiliary_variables0 : Z) (initial_prior_weight0 : Q)
             (seed0 : seed) : M (surrogate * variables) :=
    _cf_surrogate_for_distribution
      recursion_limit prior
      (mk_base_fn initial_prior_weight0 num_auxiliary_variables0)
      None num_auxiliary_variables0 None seed0.

  (** Calling the model of an assembled joint surrogate (what sampling it
      does first). *)
Definition model_fn (c : closure) : heap -> generator :=
    posterior_generator
      (fun d vs g s =>
         _cf_surrogate_for_distribution
           (depth c) d (base_distribution_surrogate_fn c) vs 0 g s)
      c.

End Builders.

(** ** Event shapes of the assembled distributions *)

(** The event of a distribution is one tensor or, after a [Split], a list
    of tensors. *)
Inductive event_struct : Type :=
| Single (shape : list Z)
| Parts (shapes : list (list Z)).

Fixpoint starts_with (p l : list Z) : bool :=
  match p, l with
  | [], _ => true
  | x :: p', y :: l' => (x =? y) && starts_with p' l'
  | _ :: _, [] => false
  end.

(** [s] ends with the dimensions [es]. *)
Definition ends_with (s es : list Z) : bool := starts_with (rev es) (rev s).

(** The last [r] dimensions of a shape. *)
Definition lastn (r : nat) (s : list Z) : list Z := rev (firstn r (rev s)).

(** A dimension pattern, where [-1] stands for any size. *)
Fixpoint matches (pattern s : list Z) : bool :=
  match pattern, s with
  | [], [] => true
  | p :: pattern', d :: s' => ((p =? -1) || (p =? d)) && matches pattern' s'
  | _, _ => false
  end.

(** Modelled from the spec: the output shape of the reshape transform of
    the invertible-transform library (not under src/).  The trailing
    dimensions that match [event_shape_in] are replaced by
    [event_shape_out], a [-1] in it taking what is left of the size. *)
Definition reshape_event_shape (event_shape_out event_shape_in s : list Z)
  : option (list Z) :=
  let r := List.length event_shape_in in
  let n := List.length s in
  if (n <? r)%nat then None
  else
    let front := firstn (n - r) s in
    let matched := skipn (n - r) s in
    if matches event_shape_in matched then
      let total := reduce_prod matched in
      let known :=
        reduce_prod (filter (fun d => negb (d =? -1)) event_shape_out) in
      let out :=
        map (fun d => if d =? -1 then total / known else d) event_shape_out in
      if reduce_prod out =? total then Some (front ++ out) else None
    else None.

(** Modelled from the spec: the gated residual layer of the
    invertible-transform library (not under src/) keeps the shape of a
    vector of its width. *)
Definition highway_event_shape (width : Z) (s : list Z) : option (list Z) :=
  match rev s with
  | d :: _ => if d =? width then Some s else None
  | [] => None
  end.

Definition forward_event_shape (b : bijector) (s : list Z) : option (list Z) :=
  match b with
  | Reshape o i => reshape_event_shape o i s
  | HighwayFlow w _ _ _ _ => highway_event_shape w s
  end.

(** [Chain] applies its last bijector first. *)
Definition chain_event_shape (bs : list bijector) (s : list Z)
  : option (list Z) :=
  fold_right
    (fun b acc => match acc with
                  | Some s' => forward_event_shape b s'
                  | None => None
                  end)
    (Some s) bs.

(** Modelled from the spec: the splitting transform of the
    invertible-transform library (not under src/) partitions the last
    dimension into parts of the given sizes, a [-1] taking the rest. *)
Definition split_event_shape (sizes s : list Z) : option (list (list Z)) :=
  match rev s with
  | [] => None
  | n :: front =>
      let known := fold_right Z.add 0 (filter (fun d => negb (d =? -1)) sizes) in
      let parts := map (fun d => if d =? -1 then n - known else d) sizes in
      if fold_right Z.add 0 parts =? n
      then Some (map (fun d => rev front ++ [d]) parts)
      else None
  end.

(** Batch shape, where the source fixes it. *)
Definition batch_shape_of (d : surrogate) : option (list Z) :=
  match d with
  | Deterministic (Tensor s _) => Some s
  | BatchBroadcast _ s => Some s
  | _ => None
  end.

(** Modelled from the spec: the event shape the distribution library
    (not under src/) gives to each distribution the source assembles. *)
Fixpoint event_shape (d : surrogate) : option event_struct :=
  match d with
  | Prior d0 => option_map Single (event_shape_tensor d0)
  | NormalDist _ _ => Some (Single [])
  | Sample d0 n =>
      match event_shape d0 with
      | Some (Single es) => Some (Single (n :: es))
      | _ => None
      end
  | BatchBroadcast d0 _ => event_shape d0
  | Deterministic _ => Some (Single [])
  | Independent d0 r =>
      match batch_shape_of d0, event_shape d0 with
      | Some bs, Some (Single es) => Some (Single (lastn (Z.to_nat r) bs ++ es))
      | _, _ => None
      end
  | Blockwise ds =>
      match (fix sizes (l : list surrogate) : option Z :=
               match l with
               | [] => Some 0
               | x :: rest =>
                   match event_shape x, sizes rest with
                   | Some (Single es), Some n => Some (reduce_prod es + n)
                   | _, _ => None
                   end
               end) ds with
      | Some n => Some (Single [n])
      | None => None
      end
  | TransformedDistribution d0 (Chain _ bs) =>
      match event_shape d0 with
      | Some (Single es) => option_map Single (chain_event_shape bs es)
      | _ => None
      end
  | TransformedDistribution _ (VarStruct _) => None
  | SplitDistribution sizes d0 =>
      match event_shape d0 with
      | Some (Single es) => option_map Parts (split_event_shape sizes es)
      | _ => None
      end
  | JointDistributionCoroutine _ _ _ => None
  end.

(** A value has the structure of an event (up to leading batch
    dimensions). *)
Definition tensor_of (es : list Z) (v : value) : bool :=
  match v with
  | Tensor s _ => ends_with s es
  | _ => false
  end.

Fixpoint tensors_of (ps : list (list Z)) (vs : list value) : bool :=
  match ps, vs with
  | [], [] => true
  | p :: ps', v :: vs' => tensor_of p v && tensors_of ps' vs'
  | _, _ => false
  end.

Definition well_shaped (v : value) (e : event_struct) : bool :=
  match e with
  | Single es => tensor_of es v
  | Parts ps => match v with
                | PyList vs => tensors_of ps vs
                | _ => false
                end
  end.

(** A sampler that returns, for each distribution, the zero tensor(s) of
    its event shape. *)
Definition zeros (d : surrogate) (_ : seed) : value :=
  match event_shape d with
  | Some (Single es) => Tensor es 0
  | Some (Parts ps) => PyList (map (fun p => Tensor p 0%nat) ps)
  | None => placeholder
  end.

(** ** Object identities *)

(** The [Chain] objects of a [variables] structure. *)
Fixpoint objects (vs : variables) : list nat :=
  match vs with
  | Chain o _ => [o]
  | VarStruct items =>
      (fix go (l : list variables) : list nat :=
         match l with
         | [] => []
         | x :: rest => objects x ++ go rest
         end) items
  end.

(** A generator started on heap [h] that constructs no object, however
    it is driven. *)
Fixpoint allocation_free (g : generator) (h : heap) : Prop :=
  match g with
  | GReturn h' => h' = h
  | GRaise _ h' => h' = h
  | GYield _ h' send => h' = h /\ forall v h2, allocation_free (send v h2) h2
  end.

(** ** Priors made of leaves *)

Section Substituted.

Variable reg : registry.

  (** The node [_cf_surrogate_for_distribution] works on. *)
Definition substituted (dist : distribution) : distribution :=
    _set_name (_as_substituted_distribution reg dist) (_get_name dist).

(** A model of sequential leaf nodes with the given event shapes, each of
    rank at most one, whose substitutes are leaves of the same event
    shape, whatever values are sent in. *)
Inductive leaf_chain : program -> list (list Z) -> Prop :=
| leaf_chain_stop : leaf_chain Stop []
| leaf_chain_yield (is_root : bool) (d : distribution)
                   (send : value -> program) (es : list Z)
                   (shapes : list (list Z)) :
    event_shape_tensor d = Some es ->
    event_shape_tensor (substituted d) = Some es ->
    (List.length es <= 1)%nat ->
    Forall (fun n => 0 <= n) es ->
    (forall v, leaf_chain (send v) shapes) ->
    leaf_chain (Yield is_root d send) (es :: shapes).

End Substituted.

(** [mirrors R i p g]: the generator [g] yields one node per node of the
    prior program [p], in the order of [p], each related by [R] to the
    prior node and its position, and returns when [p] does. *)
Fixpoint mirrors (R : nat -> distribution -> node -> Prop) (i : nat)
         (p : program) (g : generator) : Prop :=
  match p with
  | Stop => exists h, g = GReturn h
  | Yield _ d k =>
      exists y h send,
        g = GYield y h send /\
        R i d (yielded_node y) /\
        forall v v' h', forwarded v d = Ok v' ->
                        mirrors R (S i) (k v') (send v h')
  end.

(** The rules as the specification words them: every rule in turn, each
    matching one replacing the node by [substitution_fn(node)]. *)
Fixpoint apply_matching_rules (rules : list rule) (node0 : distribution)
  : distribution :=
  match rules with
  | [] => node0
  | (condition, substitution_fn) :: rest =>
      if call condition node0
      then apply_matching_rules rest (substitution_fn node0)
      else apply_matching_rules rest node0
  end.

(** The callable under which [register_cf_substitution_rule] files a
    condition. *)
Definition condition_key (issubclass : dist_class -> dist_class -> bool)
           (reg : registry) (condition : condition_arg) : callable :=
  match condition with
  | CondClass cls =>
      mk_callable (LambdaObj (lambdas_created reg))
                  (fun d => isinstance issubclass d cls)
  | CondCallable c => c
  end.

(** Every lambda filed in the table was created before. *)
Definition registry_wf (reg : registry) : Prop :=
  forall r n, In r (ASVI_SURROGATE_SUBSTITUTIONS reg) ->
              identity (fst r) = LambdaObj n ->
              (n < lambdas_created reg)%nat.

(** ** What the builders assemble for a leaf *)

(** The count of leading dimensions exempted from gating. *)
Definition gate_of (es : list Z) : Z :=
  match es with
  | [] => 1
  | n :: _ => n
  end.

(** The list a leaf's [Chain] is constructed from. *)
Definition base_chain (es : list Z) (k : Z) (w : Q) (seed0 : seed)
  : list bijector :=
  [Reshape (shape_sum es k) [-1];
   HighwayFlow (int32 (reduce_prod (shape_sum es k))) w false (gate_of es) seed0;
   HighwayFlow (int32 (reduce_prod (shape_sum es k))) w true (gate_of es) seed0;
   HighwayFlow (int32 (reduce_prod (shape_sum es k))) w true (gate_of es) seed0;
   Reshape [-1] (shape_sum es k)].

(** The sum [es + k] stays within 32 bits and has no negative
    dimension. *)
Definition extends (es : list Z) (k : Z) : Prop :=
  Forall (fun n => 0 <= n + k < 2147483648) es.

(** An auxiliary value the base builder can build over: a tensor that is
    one vector of auxiliary variables or a batch of such vectors. *)
Definition rank_1_or_2 (g : value) : bool :=
  match g with
  | Tensor s _ => (1 <=? List.length s)%nat && (List.length s <=? 2)%nat
  | _ => false
  end.

(** The surrogate of a leaf over the bijector [vs] and the auxiliary
    value [g]. *)
Definition cascading_flows (dist : distribution) (k : Z) (g : value)
           (vs : variables) : surrogate :=
  if 0 <? k then
    SplitDistribution
      [-1; k]
      (TransformedDistribution
         (Blockwise
            [BatchBroadcast
               (Prior dist)
               (match g with
                | Tensor s _ => if (1 <? List.length s)%nat then firstn 1 s else []
                | _ => []
                end);
             Independent (Deterministic g) 1])
         vs)
  else TransformedDistribution (Prior dist) vs.

(** The list the auxiliary [Chain] is constructed from, and the node
    built over it. *)
Definition auxiliary_chain (k : Z) (seed0 : seed) : list bijector :=
  [HighwayFlow k (1#2) false 0 seed0;
   HighwayFlow k (1#2) true 0 seed0;
   HighwayFlow k (1#2) true 0 seed0].

Definition auxiliary_node (k : Z) (vs : variables) : node :=
  mk_node true (TransformedDistribution (Sample (NormalDist 0 (1#10)) k) vs).

(** ** Running a model *)

Section Running.

Variable split_seed : seed -> seed * seed.
Variable sample : surrogate -> seed -> value.

(** Modelled from the spec: the distribution library (not under src/)
    runs a model by sampling each node it yields and sending the value
    back, until the model finishes.  The nodes met on the way: *)
Fixpoint yielded_nodes (gen : generator) (seed0 : seed) : list node :=
  match gen with
  | GYield y h send =>
      let (seed1, local_seed) := split_seed seed0 in
      yielded_node y
      :: yielded_nodes (send (sample (node_dist (yielded_node y)) local_seed) h)
                       seed1
  | _ => []
  end.

Fixpoint prior_nodes (p : program) (seed0 : seed) : list distribution :=
  match p with
  | Stop => []
  | Yield _ d send =>
      let (seed1, local_seed) := split_seed seed0 in
      d :: prior_nodes (send (sample (Prior d) local_seed)) seed1
  end.

End Running.

(** The structure a joint distribution declares: the event of each of
    its nodes, in order. *)
Definition declared_structure (split_seed : seed -> seed * seed)
           (sample : surrogate -> seed -> value)
           (prior : distribution) (seed0 : seed) : list (option event_struct) :=
  match prior with
  | Joint _ _ p =>
      map (fun d => event_shape (Prior d)) (prior_nodes split_seed sample p seed0)
  | _ => [event_shape (Prior prior)]
  end.

Definition surrogate_structure (reg : registry)
           (split_seed : seed -> seed * seed)
           (sample : surrogate -> seed -> value)
           (sp : surrogate) (seed0 : seed) (h : heap)
  : list (option event_struct) :=
  match sp with
  | JointDistributionCoroutine _ _ c =>
      map (fun n => event_shape (node_dist n))
          (yielded_nodes split_seed sample (model_fn reg split_seed sample c h) seed0)
  | _ => [event_shape sp]
  end.

(** ** Concrete instances *)

(** A class hierarchy without inheritance. *)
Definition same_class (a b : dist_class) : bool :=
  match a, b with
  | Normal_cls, Normal_cls | HalfNormal_cls, HalfNormal_cls
  | TruncatedNormal_cls, TruncatedNormal_cls | Uniform_cls, Uniform_cls
  | Beta_cls, Beta_cls | Exponential_cls, Exponential_cls
  | Gamma_cls, Gamma_cls | Chi2_cls, Chi2_cls
  | TransformedDistribution_cls, TransformedDistribution_cls
  | JointDistributionCoroutine_cls, JointDistributionCoroutine_cls
  | JointDistributionCoroutineAutoBatched_cls,
    JointDistributionCoroutineAutoBatched_cls => true
  | Other_cls m, Other_cls n => String.eqb m n
  | _, _ => false
  end.

Definition default_registry : registry := initial_registry same_class.

(** A seed splitter. *)
Definition split_pair (s : seed) : seed * seed :=
  match s with
  | Some n => (Some (2 * n), Some (2 * n + 1))
  | None => (None, None)
  end.

Definition normal (name : string) (loc : tensor_expr) : distribution :=
  Leaf Normal_cls name [] [("loc", loc); ("scale", TConst (1#10))].

Definition half_normal (name : string) (scale : tensor_expr) : distribution :=
  Leaf HalfNormal_cls name [] [("scale", scale)].

(** The Brownian motion of the docstring: five scalar normals, each
    centred on the one before. *)
Fixpoint random_walk (steps : nat) (new : value) : program :=
  match steps with
  | O => Stop
  | S steps' =>
      Yield false (normal "Normal" (TValue new)) (random_walk steps')
  end.

Definition brownian_motion : distribution :=
  Joint true "prior"
        (Yield false (normal "Normal" (TConst 0)) (random_walk 4)).

(** A model of one root node. *)
Definition one_root : distribution :=
  Joint false "prior" (Yield true (normal "x" (TConst 0)) (fun _ => Stop)).

(** A model whose second node is itself a model. *)
Definition nested_prior : distribution :=
  Joint false "outer"
        (Yield true (normal "x" (TConst 0))
               (fun x => Yield false brownian_motion (fun _ => Stop))).

(** The bijector a leaf's surrogate is built over. *)
Fixpoint bijector_of (sp : surrogate) : option variables :=
  match sp with
  | TransformedDistribution _ vs => Some vs
  | SplitDistribution _ d => bijector_of d
  | _ => None
  end.

(** A parameter set constructed for a leaf of event shape [es]. *)
Definition fits (k : Z) (es : list Z) (vs : variables) : Prop :=
  exists o w s, vs = Chain o (base_chain es k w s).

(** What the walker yields for a leaf when [k] auxiliary variables are
    in use: an untagged node whose event has two parts, the flattened
    event of the leaf and the [k] auxiliary dimensions. *)
Definition split_leaf_node (k : Z) (i : nat) (d : distribution) (n : node)
  : Prop :=
  node_is_root n = false
  /\ exists es,
      event_shape_tensor d = Some es
      /\ event_shape (node_dist n) = Some (Parts [[reduce_prod es]; [k]]).

(** A callable of the caller's: "has a scale parameter". *)
Definition has_scale : callable :=
  mk_callable (UserObj 0)
              (fun d => match d with
                        | Leaf _ _ _ ps =>
                            existsb (fun p => String.eqb (fst p) "scale") ps
                        | _ => false
                        end).

(** [ASVI_SURROGATE_SUBSTITUTIONS[key]] *)
Fixpoint dict_get (key : obj_id) (items : list rule)
  : option (distribution -> distribution) :=
  match items with
  | [] => None
  | (k, v) :: rest =>
      if obj_id_eqb (identity k) key then Some v else dict_get key rest
  end.

(** Adding [k] to a dimension of one of the shapes stays within 32
    bits. *)
Definition room_for (k : Z) (shapes : list (list Z)) : Prop :=
  Forall (Forall (fun n => n + k < 2147483648)) shapes.

(** A value drawn from a distribution of event [e], one draw or one
    batch of draws at a time: it has the structure of the event, with at
    most one leading dimension where the event is a single tensor. *)
Definition drawn (v : value) (e : event_struct) : bool :=
  well_shaped v e
  && match e, v with
     | Single es, Tensor s _ => (List.length s <=? S (List.length es))%nat
     | _, _ => true
     end.

(** What is compared of a node: its root tag and its event shape. *)
Definition node_shape (n : node) : bool * option event_struct :=
  (node_is_root n, event_shape (node_dist n)).

(** The nodes of the surrogate of a prior of leaves with the given event
    shapes, under [k] auxiliary variables. *)
Definition leaf_surrogate_shapes (k : Z) (shapes : list (list Z))
  : list (bool * option event_struct) :=
  (true, Some (Single [k]))
  :: map (fun es => (false, Some (Parts [[reduce_prod es]; [k]]))) shapes.

(** A sampler that returns tensors of payload 1 where [zeros] returns
    tensors of payload 0. *)
Definition ones (d : surrogate) (_ : seed) : value :=
  match event_shape d with
  | Some (Single es) => Tensor es 1
  | Some (Parts ps) => PyList (map (fun p => Tensor p 1%nat) ps)
  | None => placeholder
  end.

(** A model whose second node is there only when the value of the first
    has a positive payload. *)
Definition value_dependent_prior : distribution :=
  Joint false "prior"
        (Yield false (normal "x" (TConst 0))
               (fun x => match x with
                         | Tensor _ (S _) =>
                             Yield false (normal "y" (TValue x)) (fun _ => Stop)
                         | _ => Stop
                         end)).

(** A parameter set that is one chain of transforms, not a structure of
    parameter sets. *)
Definition is_chain (vs : variables) : bool :=
  match vs with
  | Chain _ _ => true
  | VarStruct _ => false
  end.

(** ** Walks over supplied parameter sets *)

(** A model all of whose nodes are, after substitution, base
    distributions, whatever values are sent in. *)
Inductive leaves (reg : registry) : program -> Prop :=
| leaves_stop : leaves reg Stop
| leaves_yield (is_root : bool) (d : distribution) (send : value -> program) :
    has_model_coroutine (substituted reg d) = false ->
    (forall v, leaves reg (send v)) ->
    leaves reg (Yield is_root d send).

(** [wired fv i p gen]: the generator [gen] builds the surrogate of the
    node of [p] at position [i] over [fv[i]], that of the next node over
    [fv[i + 1]], and so on; it raises [IndexError] at the first node for
    which [fv] has no entry, and returns when [p] does. *)
Fixpoint wired (fv : list variables) (i : nat) (p : program) (gen : generator)
  : Prop :=
  match p with
  | Stop => exists h, gen = GReturn h
  | Yield _ d k =>
      match nth_error fv i with
      | None => exists h, gen = GRaise IndexError h
      | Some vs =>
          exists n h send,
            gen = GYield (YNode n) h send
            /\ bijector_of (node_dist n) = Some vs
            /\ forall v v' h', forwarded v d = Ok v' ->
                                wired fv (S i) (k v') (send v h')
      end
  end.

(** The parameter sets a generator yields when it is driven by sampling,
    in the order of the yields. *)
Fixpoint yielded_variables (split_seed : seed -> seed * seed)
         (sample : surrogate -> seed -> value)
         (gen : generator) (seed0 : seed) : list variables :=
  match gen with
  | GYield (YPair n vs) h send =>
      let (seed1, local_seed) := split_seed seed0 in
      vs :: yielded_variables split_seed sample
                              (send (sample (node_dist n) local_seed) h) seed1
  | _ => []
  end.

(** * Theorems *)

(** ** The substitution registry *)

Section RegistryFacts.

Variable issubclass : dist_class -> dist_class -> bool.

Lemma fold_rules_apply_matching_rules (rules : list rule) (node0 : distribution) :
    fold_left
      (fun distribution (item : rule) =>
         let (condition, substitution_fn) := item in
         if call condition distribution
         then substitution_fn distribution
         else distribution)
      rules node0
    = apply_matching_rules rules node0.
Proof.
    revert node0.
    induction rules as [| [condition substitution_fn] rest IH]; intros node0.
    - reflexivity.
    - simpl. destruct (call condition node0); apply IH.
Qed.

Lemma apply_matching_rules_app (rules1 rules2 : list rule) (node0 : distribution) :
    apply_matching_rules (rules1 ++ rules2) node0
    = apply_matching_rules rules2 (apply_matching_rules rules1 node0).
Proof.
    revert node0.
    induction rules1 as [| [condition substitution_fn] rest IH]; intros node0.
    - reflexivity.
    - simpl. destruct (call condition node0); apply IH.
Qed.

Lemma dict_set_absent (key : callable) (v : distribution -> distribution)
        (items : list rule) :
    dict_mem (identity key) items = false ->
    dict_set key v items = items ++ [(key, v)].
Proof.
    induction items as [| [k w] rest IH]; simpl; intros Hmem.
    - reflexivity.
    - apply orb_false_iff in Hmem. destruct Hmem as [Hk Hrest].
      rewrite Hk, (IH Hrest). reflexivity.
Qed.

Lemma dict_set_present (key : callable) (v : distribution -> distribution)
        (items : list rule) :
    dict_mem (identity key) items = true ->
    map fst (dict_set key v items) = map fst items.
Proof.
    induction items as [| [k w] rest IH]; simpl; intros Hmem.
    - discriminate.
    - destruct (obj_id_eqb (identity k) (identity key)) eqn:Hk; simpl.
      + reflexivity.
      + rewrite (IH Hmem). reflexivity.
Qed.

Lemma dict_set_length (key : callable) (v : distribution -> distribution)
        (items : list rule) :
    List.length (dict_set key v items)
    = if dict_mem (identity key) items
      then List.length items else S (List.length items).
Proof.
    induction items as [| [k w] rest IH]; simpl.
    - reflexivity.
    - destruct (obj_id_eqb (identity k) (identity key)) eqn:Hk; simpl.
      + reflexivity.
      + rewrite IH. destruct (dict_mem (identity key) rest); reflexivity.
Qed.

Lemma obj_id_eqb_refl (a : obj_id) : obj_id_eqb a a = true.
Proof. destruct a; simpl; apply Nat.eqb_refl. Qed.

Lemma dict_get_set (key : callable) (v : distribution -> distribution)
      (items : list rule) :
  dict_get (identity key) (dict_set key v items) = Some v.
Proof.
  induction items as [| [k w] rest IH]; simpl.
  - rewrite obj_id_eqb_refl. reflexivity.
  - destruct (obj_id_eqb (identity k) (identity key)) eqn:Hk; simpl;
      rewrite Hk; [reflexivity | exact IH].
Qed.

Lemma fresh_lambda_absent (reg : registry) :
    registry_wf reg ->
    dict_mem (LambdaObj (lambdas_created reg))
             (ASVI_SURROGATE_SUBSTITUTIONS reg) = false.
Proof.
    intros Hwf. unfold dict_mem.
    destruct (existsb _ _) eqn:Hex; [| reflexivity].
    apply existsb_exists in Hex. destruct Hex as [r [Hin Heq]].
    destruct (identity (fst r)) as [m | m] eqn:Hid; simpl in Heq.
    - apply Nat.eqb_eq in Heq. subst m.
      specialize (Hwf r _ Hin Hid). lia.
    - discriminate.
Qed.

Lemma register_class_appends (reg : registry) (cls : dist_class)
        (substitution_fn : distribution -> distribution) :
    registry_wf reg ->
    ASVI_SURROGATE_SUBSTITUTIONS
      (register_cf_substitution_rule issubclass (CondClass cls) substitution_fn reg)
    = ASVI_SURROGATE_SUBSTITUTIONS reg
      ++ [(condition_key issubclass reg (CondClass cls), substitution_fn)].
Proof.
    intros Hwf. simpl. apply dict_set_absent. simpl.
    apply fresh_lambda_absent. exact Hwf.
Qed.

Lemma register_preserves_wf (reg : registry) (condition : condition_arg)
        (substitution_fn : distribution -> distribution) :
    registry_wf reg ->
    (forall c n, condition = CondCallable c -> identity c = LambdaObj n ->
                 (n < lambdas_created reg)%nat) ->
    registry_wf (register_cf_substitution_rule issubclass condition substitution_fn reg).
Proof.
    intros Hwf Hc r n Hin Hid.
    assert (Hkeys : forall key v items,
               In r (dict_set key v items) ->
               (exists r', In r' items /\ fst r' = fst r) \/ fst r = key).
    { intros key v items. induction items as [| [k w] rest IH]; simpl.
      - intros [<- | []]. right. reflexivity.
      - destruct (obj_id_eqb (identity k) (identity key)); simpl.
        + intros [<- | Hr].
          * left. exists (k, w). split; [left; reflexivity | reflexivity].
          * left. exists r. split; [right; exact Hr | reflexivity].
        + intros [<- | Hr].
          * left. exists (k, w). split; [left; reflexivity | reflexivity].
          * destruct (IH Hr) as [[r' [Hin' Hfst]] | Hkey].
            -- left. exists r'. split; [right; exact Hin' | exact Hfst].
            -- right. exact Hkey. }
    destruct condition as [cls | c]; simpl in *.
    - destruct (Hkeys _ _ _ Hin) as [[r' [Hin' Hfst]] | Hkey].
      + rewrite <- Hfst in Hid. specialize (Hwf r' n Hin' Hid). lia.
      + rewrite Hkey in Hid. simpl in Hid. injection Hid as <-. lia.
    - destruct (Hkeys _ _ _ Hin) as [[r' [Hin' Hfst]] | Hkey].
      + rewrite <- Hfst in Hid. exact (Hwf r' n Hin' Hid).
      + rewrite Hkey in Hid. exact (Hc c n eq_refl Hid).
Qed.

  (** C5.  [_as_substituted_distribution] visits the rules of the table
      in the order of the table, each matching rule replacing the node by
      [substitution_fn(node)] and later rules seeing the replaced node;
      and a rule registered under a condition not yet in the table is
      visited last, after all rules registered before it, on the node
      they have produced. *)
Theorem substitutions_fire_in_registration_order
          (reg : registry) (node0 : distribution) :
    _as_substituted_distribution reg node0
    = apply_matching_rules (ASVI_SURROGATE_SUBSTITUTIONS reg) node0
    /\ forall (condition : condition_arg)
              (substitution_fn : distribution -> distribution),
        dict_mem (identity (condition_key issubclass reg condition))
                 (ASVI_SURROGATE_SUBSTITUTIONS reg) = false ->
        _as_substituted_distribution
          (register_cf_substitution_rule issubclass condition substitution_fn reg)
          node0
        = let node1 := _as_substituted_distribution reg node0 in
          if call (condition_key issubclass reg condition) node1
          then substitution_fn node1
          else node1.
Proof.
    split.
    - apply fold_rules_apply_matching_rules.
    - intros condition substitution_fn Habsent.
      unfold _as_substituted_distribution.
      rewrite !fold_rules_apply_matching_rules.
      assert (Htable :
                ASVI_SURROGATE_SUBSTITUTIONS
                  (register_cf_substitution_rule issubclass condition
                                                 substitution_fn reg)
                = ASVI_SURROGATE_SUBSTITUTIONS reg
                  ++ [(condition_key issubclass reg condition, substitution_fn)]).
      { destruct condition as [cls | c]; simpl in *;
          apply dict_set_absent; exact Habsent. }
      rewrite Htable, apply_matching_rules_app. simpl.
      destruct (call _ _); reflexivity.
Qed.

  (** C10.  In a registry whose lambdas were all created by earlier
      registrations: registering a class files the rule under a lambda
      created by that call, as a new last entry, whatever was registered
      before; registering the same class twice leaves two entries under
      two different lambdas, which both fire, the second on what the
      first produced; and registering a callable files the rule under
      that callable: it replaces the entry, the table keeping its keys,
      exactly when that same callable object is already a key, and adds
      a last entry otherwise. *)
Theorem class_conditions_get_fresh_keys (reg : registry) :
    registry_wf reg ->
    (forall cls fn,
        ASVI_SURROGATE_SUBSTITUTIONS
          (register_cf_substitution_rule issubclass (CondClass cls) fn reg)
        = ASVI_SURROGATE_SUBSTITUTIONS reg
          ++ [(mk_callable (LambdaObj (lambdas_created reg))
                           (fun d => isinstance issubclass d cls), fn)])
    /\ (forall cls fn1 fn2 node0,
           let reg2 :=
             register_cf_substitution_rule issubclass (CondClass cls) fn2
               (register_cf_substitution_rule issubclass (CondClass cls) fn1 reg) in
           ASVI_SURROGATE_SUBSTITUTIONS reg2
           = ASVI_SURROGATE_SUBSTITUTIONS reg
             ++ [(mk_callable (LambdaObj (lambdas_created reg))
                              (fun d => isinstance issubclass d cls), fn1);
                 (mk_callable (LambdaObj (S (lambdas_created reg)))
                              (fun d => isinstance issubclass d cls), fn2)]
           /\ _as_substituted_distribution reg2 node0
              = let node1 := _as_substituted_distribution reg node0 in
                let node2 :=
                  if isinstance issubclass node1 cls then fn1 node1 else node1 in
                if isinstance issubclass node2 cls then fn2 node2 else node2)
    /\ (forall c fn,
           let table := ASVI_SURROGATE_SUBSTITUTIONS reg in
           let table' :=
             ASVI_SURROGATE_SUBSTITUTIONS
               (register_cf_substitution_rule issubclass (CondCallable c) fn reg) in
           dict_get (identity c) table' = Some fn
           /\ if dict_mem (identity c) table
              then map fst table' = map fst table
              else table' = table ++ [(c, fn)]).
Proof.
    intros Hwf. split; [| split].
    - intros cls fn. apply (register_class_appends cls fn Hwf).
    - intros cls fn1 fn2 node0 reg2.
      assert (Hwf1 : registry_wf
                       (register_cf_substitution_rule issubclass (CondClass cls) fn1 reg)).
      { apply register_preserves_wf; [exact Hwf | discriminate]. }
      assert (Htable :
                ASVI_SURROGATE_SUBSTITUTIONS reg2
                = ASVI_SURROGATE_SUBSTITUTIONS reg
                  ++ [(mk_callable (LambdaObj (lambdas_created reg))
                                   (fun d => isinstance issubclass d cls), fn1);
                      (mk_callable (LambdaObj (S (lambdas_created reg)))
                                   (fun d => isinstance issubclass d cls), fn2)]).
      { unfold reg2. rewrite (register_class_appends cls fn2 Hwf1).
        rewrite (register_class_appends cls fn1 Hwf).
        rewrite <- app_assoc. reflexivity. }
      split; [exact Htable |].
      unfold _as_substituted_distribution.
      rewrite !fold_rules_apply_matching_rules, Htable, apply_matching_rules_app.
      simpl. cbv zeta.
      set (node1 := apply_matching_rules (ASVI_SURROGATE_SUBSTITUTIONS reg) node0).
      destruct (isinstance issubclass node1 cls) eqn:H1.
      + destruct (isinstance issubclass (fn1 node1) cls); reflexivity.
      + rewrite H1. reflexivity.
    - intros c fn table table'. unfold table', table. simpl.
      split; [apply dict_get_set |].
      destruct (dict_mem (identity c) (ASVI_SURROGATE_SUBSTITUTIONS reg)) eqn:Hmem.
      + apply dict_set_present. exact Hmem.
      + apply dict_set_absent. exact Hmem.
Qed.

End RegistryFacts.

(** ** The walker without auxiliary variables *)

Section WalkerFacts.

Variable reg : registry.
Variable split_seed : seed -> seed * seed.
Variable sample : surrogate -> seed -> value.

(** When [num_auxiliary_variables] is not positive the generator never
    assigns [global_auxiliary_variables], and the first dispatch reads it
    unbound. *)
Lemma posterior_generator_unbound_local
      (recur : distribution -> option variables -> option value -> seed ->
               M (surrogate * variables))
      (c : closure) (h : heap) :
  num_auxiliary_variables c <= 0 ->
  prior_coroutine c <> Stop ->
  posterior_generator split_seed recur c h = GRaise UnboundLocalError h.
Proof.
  intros Hk Hp. unfold posterior_generator.
  destruct (prior_coroutine c) as [| was_root dist send_prior]; [congruence |].
  destruct (0 <? num_auxiliary_variables c) eqn:Hpos.
  - apply Z.ltb_lt in Hpos. lia.
  - simpl. destruct (split_seed (default_seed c)) as [seed1 init_seed].
    destruct (flat_variables c) as [[| v fv] |]; reflexivity.
Qed.

Lemma posterior_generator_empty_prior
      (recur : distribution -> option variables -> option value -> seed ->
               M (surrogate * variables))
      (c : closure) (h : heap) :
  prior_coroutine c = Stop ->
  posterior_generator split_seed recur c h = GRaise RuntimeError h.
Proof.
  intros Hp. unfold posterior_generator. rewrite Hp. reflexivity.
Qed.

(** Creating the variables of a joint distribution without auxiliary
    variables never succeeds. *)
Lemma joint_harvest_without_auxiliary_raises
      (recur : distribution -> option variables -> option value -> seed ->
               M (surrogate * variables))
      (depth0 : nat) (u : bool) (name : string) (p : program) (base : base_fn)
      (k : Z) (seed0 : seed) (h : heap) :
  k <= 0 ->
  _cf_surrogate_for_joint_distribution split_seed sample recur depth0
    (Joint u name p) base None k seed0 h
  = (Raise (match p with Stop => RuntimeError | _ => UnboundLocalError end), h).
Proof.
  intros Hk. unfold _cf_surrogate_for_joint_distribution, bind,
               _extract_variables_from_coroutine_model.
  destruct p as [| was_root dist send_prior].
  - rewrite posterior_generator_empty_prior by reflexivity. reflexivity.
  - rewrite posterior_generator_unbound_local by (simpl; solve [lia | discriminate]).
    reflexivity.
Qed.

Lemma substituted_joint (d : distribution) (u : bool) (name : string) (p : program) :
  substituted reg d = Joint u name p ->
  has_model_coroutine
    (_set_name (_as_substituted_distribution reg d) (_get_name d)) = true.
Proof.
  unfold substituted. intros ->. reflexivity.
Qed.

(** A joint node met by the walker is handed over with
    [num_auxiliary_variables] at its default, 0: creating its variables
    raises, whatever the node contains. *)
Lemma nested_joint_harvest_raises
      (fuel : nat) (d : distribution) (u : bool) (name : string) (p : program)
      (base : base_fn) (g : option value) (seed0 : seed) (h : heap) :
  substituted reg d = Joint u name p ->
  _cf_surrogate_for_distribution reg split_seed sample (S fuel) d base None 0 g seed0 h
  = (Raise (match p with Stop => RuntimeError | _ => UnboundLocalError end), h).
Proof.
  intros Hd. simpl.
  rewrite (substituted_joint _ Hd).
  fold (substituted reg d). rewrite Hd.
  apply joint_harvest_without_auxiliary_raises. lia.
Qed.

(** Whatever the loop yields for a node of the prior carries the root tag
    exactly when the node did and [num_auxiliary_variables] is 0. *)
Lemma posterior_loop_root_tag
      (recur : distribution -> option variables -> option value -> seed ->
               M (surrogate * variables))
      (c : closure) (was_root : bool) (dist : distribution)
      (send_prior : value -> program) (seed0 : seed) (i : nat)
      (g : option value) (h h' : heap) (y : yielded)
      (resume : value -> heap -> generator) :
  posterior_loop split_seed recur c (Yield was_root dist send_prior) seed0 i g h
  = GYield y h' resume ->
  node_is_root (yielded_node y)
  = was_root && (num_auxiliary_variables c =? 0).
Proof.
  simpl. destruct (split_seed seed0) as [seed1 init_seed].
  destruct (flat_variables c) as [[| v fv] |]; simpl;
    try destruct (getitem (v :: fv) i); try discriminate;
    (destruct g as [g |]; [| discriminate]);
    match goal with
    | |- context [recur ?d ?vs ?gv ?s ?hp] =>
        destruct (recur d vs gv s hp) as [[[sp vs'] | e] h1]
    end; try discriminate;
    intros H; injection H as <- _ _; reflexivity.
Qed.

(** With a non-empty structure of variables the joint builder assembles
    the surrogate at once. *)
Lemma joint_assembly
      (recur : distribution -> option variables -> option value -> seed ->
               M (surrogate * variables))
      (depth0 : nat) (u : bool) (name : string) (p : program) (base : base_fn)
      (v : variables) (rest : list variables) (k : Z) (seed0 : seed) (h : heap) :
  _cf_surrogate_for_joint_distribution split_seed sample recur depth0
    (Joint u name p) base (Some (VarStruct (v :: rest))) k seed0 h
  = (Ok (JointDistributionCoroutine u name
           (mk_closure p (Some (v :: rest)) k base seed0 depth0),
         VarStruct (v :: rest)), h).
Proof. reflexivity. Qed.

End WalkerFacts.

(** ** The builder of a base distribution *)

Lemma int32_id (z : Z) :
  -2147483648 <= z < 2147483648 -> int32 z = z.
Proof.
  intros Hz. unfold int32.
  rewrite Z.mod_small by lia. lia.
Qed.

Lemma int32_range (z : Z) : -2147483648 <= int32 z < 2147483648.
Proof.
  unfold int32.
  pose proof (Z.mod_pos_bound (z + 2147483648) 4294967296 ltac:(lia)). lia.
Qed.

Lemma event_shape_tensor_range (d : distribution) (es : list Z) :
  event_shape_tensor d = Some es ->
  Forall (fun n => -2147483648 <= n < 2147483648) es.
Proof.
  induction d as [cls name es0 ps | b name d IH | u name p]; simpl; intros H.
  - injection H as <-. apply Forall_forall. intros n Hn.
    apply in_map_iff in Hn. destruct Hn as [m [<- _]]. apply int32_range.
  - apply IH. exact H.
  - discriminate.
Qed.

Lemma shape_add_fits (es : list Z) (k : Z) :
  -2147483648 <= k < 2147483648 ->
  shape_add es k = Ok (shape_sum es k).
Proof.
  intros Hk. unfold shape_add, fits_int32.
  replace (-2147483648 <=? k) with true by (symmetry; apply Z.leb_le; lia).
  replace (k <? 2147483648) with true by (symmetry; apply Z.ltb_lt; lia).
  reflexivity.
Qed.

Lemma shape_sum_exact (es : list Z) (k : Z) :
  extends es k -> shape_sum es k = map (fun n => n + k) es.
Proof.
  unfold extends, shape_sum. intros H. apply map_ext_in. intros n Hn.
  rewrite Forall_forall in H. apply int32_id. specialize (H n Hn). lia.
Qed.

Lemma valid_shape_sum (es : list Z) (k : Z) :
  (List.length es <= 1)%nat -> extends es k ->
  valid_shape (shape_sum es k) = true.
Proof.
  intros Hrank Hext. rewrite (shape_sum_exact Hext).
  destruct es as [| n [| m es']]; simpl in Hrank; [reflexivity | | lia].
  inversion Hext as [| ? ? Hn _]; subst.
  unfold valid_shape. cbn [map forallb filter].
  replace (-1 <=? n + k) with true by (symmetry; apply Z.leb_le; lia).
  destruct (n + k =? -1); reflexivity.
Qed.

Lemma new_Reshape_valid (event_shape_out event_shape_in : list Z) :
  valid_shape event_shape_out = true ->
  valid_shape event_shape_in = true ->
  new_Reshape event_shape_out event_shape_in
  = Ok (Reshape event_shape_out event_shape_in).
Proof.
  intros Ho Hi. unfold new_Reshape. rewrite Ho, Hi. reflexivity.
Qed.


Lemma base_builder_reuse (dist : distribution) (w : Q) (k : Z) (g : value)
      (vs : variables) (seed0 : seed) (h : heap) :
  (0 < k -> rank_1_or_2 g = true) ->
  _cf_convex_update_for_base_distribution dist w k (Some g) (Some vs) seed0 h
  = (Ok (cascading_flows dist k g vs, vs), h).
Proof.
  intros Hg. unfold _cf_convex_update_for_base_distribution, cascading_flows, bind, ret, lift.
  destruct (0 <? k) eqn:Hk; [| reflexivity].
  apply Z.ltb_lt in Hk. specialize (Hg Hk).
  destruct g as [s p | items | items]; try discriminate.
  destruct s as [| a [| b [| c s']]]; try discriminate; reflexivity.
Qed.

Lemma base_builder_construct (dist : distribution) (w : Q) (k : Z) (g : value)
      (seed0 : seed) (h : heap) (es : list Z) :
  event_shape_tensor dist = Some es ->
  (List.length es <= 1)%nat ->
  -2147483648 <= k < 2147483648 ->
  extends es k ->
  (0 < k -> rank_1_or_2 g = true) ->
  _cf_convex_update_for_base_distribution dist w k (Some g) None seed0 h
  = (Ok (cascading_flows dist k g (Chain h (base_chain es k w seed0)),
         Chain h (base_chain es k w seed0)), S h).
Proof.
  intros Hes Hrank Hk32 Hext Hg.
  unfold _cf_convex_update_for_base_distribution, cascading_flows, bind, ret, lift.
  rewrite Hes, (shape_add_fits es Hk32).
  rewrite !new_Reshape_valid
    by (try apply (valid_shape_sum Hrank Hext); reflexivity).
  destruct es as [| n [| m es']]; simpl in Hrank; [| | lia];
    cbn -[base_chain shape_sum int32];
    (destruct (0 <? k) eqn:Hk; [| reflexivity]);
    apply Z.ltb_lt in Hk; specialize (Hg Hk);
    (destruct g as [s p | items | items]; try discriminate);
    (destruct s as [| a [| b [| c s']]]; try discriminate; reflexivity).
Qed.

(** Without a node to dispatch to, a leaf builds its surrogate over the
    prior itself when no auxiliary variable is asked for. *)
Lemma base_builder_alone (dist : distribution) (w : Q) (g : option value)
      (seed0 : seed) (h : heap) (es : list Z) (k : Z) :
  event_shape_tensor dist = Some es ->
  (List.length es <= 1)%nat ->
  -2147483648 <= k <= 0 ->
  extends es k ->
  _cf_convex_update_for_base_distribution dist w k g None seed0 h
  = (Ok (TransformedDistribution (Prior dist) (Chain h (base_chain es k w seed0)),
         Chain h (base_chain es k w seed0)), S h).
Proof.
  intros Hes Hrank Hk Hext.
  unfold _cf_convex_update_for_base_distribution, bind, ret, lift.
  rewrite Hes, (@shape_add_fits es k) by lia.
  rewrite !new_Reshape_valid
    by (try apply (valid_shape_sum Hrank Hext); reflexivity).
  assert (Hneg : (0 <? k) = false) by (apply Z.ltb_ge; lia).
  destruct es as [| n [| m es']]; simpl in Hrank; [| | lia];
    cbn -[base_chain shape_sum int32]; rewrite Hneg; reflexivity.
Qed.

(** C6 (failing input).  A leaf whose event is a 2 x 3 matrix, in
    construction mode: the conversion [int(actual_event_shape)] raises
    and no chain is created. *)
Example base_builder_raises_on_matrix_event :
  _cf_convex_update_for_base_distribution
    (Leaf Normal_cls "w" [2; 3] []) (1#2) 0 None None (Some 0) 0%nat
  = (Raise TypeError, 0%nat).
Proof. reflexivity. Qed.

(** ** The auxiliary-variable generator *)

(** C7.  In a model with a first node, with [num_auxiliary_variables = k > 0]
    and no parameter set supplied, the generator first constructs one
    [Chain] over three highway-flow layers of width [k], each with
    [gate_first_n = 0] and initial residual fraction 0.5, two with the
    nonlinearity and the last without, listed in reverse order of
    construction; what it yields first is the root-tagged pushforward
    through that chain of [k] samples of Normal(0, 0.1), paired with the
    chain. *)
Theorem auxiliary_generator_builds_three_layers
        (split_seed : seed -> seed * seed)
        (recur : distribution -> option variables -> option value -> seed ->
                 M (surrogate * variables))
        (c : closure) (h : heap)
        (is_root : bool) (d : distribution) (send : value -> program) :
  prior_coroutine c = Yield is_root d send ->
  0 < num_auxiliary_variables c ->
  truthy_flat (flat_variables c) = false ->
  let k := num_auxiliary_variables c in
  let layer activation_fn := build_highway_flow_layer k (1#2) activation_fn 0 (default_seed c) in
  let stack := Chain h (rev [layer true; layer true; layer false]) in
  exists resume,
    posterior_generator split_seed recur c h
    = GYield
        (YPair (mk_node true
                        (TransformedDistribution
                           (Sample (NormalDist 0 (1#10)) k) stack))
               stack)
        (S h) resume.
Proof.
  intros Hp Hk Hflat k layer stack.
  unfold posterior_generator. rewrite Hp.
  apply Z.ltb_lt in Hk. rewrite Hk.
  destruct (flat_variables c) as [[| v fv] |]; simpl in Hflat;
    try discriminate; simpl; eexists; reflexivity.
Qed.

(** ** Root tags *)

(** C8 (failing input).  A model of one root node, built with
    [num_auxiliary_variables = 0]: the walker strips the tag and splits
    the seed, then raises [UnboundLocalError] while dispatching the node;
    no surrogate is produced, so none is tagged as root. *)
Example root_node_without_auxiliary_raises :
  build_cf_surrogate_posterior default_registry split_pair zeros
                               one_root 0 (1#2) (Some 0) 0%nat
  = (Raise UnboundLocalError, 0%nat).
Proof. vm_compute. reflexivity. Qed.

(** ** Assembly *)

(** C3 (counterexample).  One scalar node and one auxiliary variable:
    the surrogate is returned, with two slots, the second of two parts,
    where the prior declares one scalar slot. *)
Lemma assembly_accepts_structure_mismatch :
  exists sp vs h,
    build_cf_surrogate_posterior default_registry split_pair zeros
                                 one_root 1 (1#2) (Some 0) 0%nat
    = (Ok (sp, vs), h)
    /\ declared_structure split_pair zeros one_root (Some 0)
       = [Some (Single [])]
    /\ surrogate_structure default_registry split_pair zeros sp (Some 0) h
       = [Some (Single [1]); Some (Parts [[1]; [1]])]
    /\ surrogate_structure default_registry split_pair zeros sp (Some 0) h
       <> declared_structure split_pair zeros one_root (Some 0).
Proof.
  do 3 eexists. split; [vm_compute; reflexivity |].
  split; [vm_compute; reflexivity |].
  split; [vm_compute; reflexivity |].
  vm_compute. discriminate.
Qed.

(** C3 (amended).  Assembly compares no structures: from a joint
    distribution and any non-empty structure of variables,
    [_cf_surrogate_for_joint_distribution] returns the joint surrogate
    over these variables, with the name and the kind of the prior, and
    raises nothing. *)
Theorem assembly_never_raises
        (split_seed : seed -> seed * seed)
        (sample : surrogate -> seed -> value)
        (recur : distribution -> option variables -> option value -> seed ->
                 M (surrogate * variables))
        (depth0 : nat) (use_vectorized_map : bool) (name : string)
        (p : program) (base : base_fn)
        (v : variables) (rest : list variables) (k : Z) (seed0 : seed)
        (h : heap) :
  exists c,
    _cf_surrogate_for_joint_distribution split_seed sample recur depth0
      (Joint use_vectorized_map name p) base (Some (VarStruct (v :: rest)))
      k seed0 h
    = (Ok (JointDistributionCoroutine use_vectorized_map name c,
           VarStruct (v :: rest)), h)
    /\ prior_coroutine c = p
    /\ flat_variables c = Some (v :: rest).
Proof.
  eexists. split; [apply joint_assembly |]. split; reflexivity.
Qed.

(** ** Nested models *)

(** C4 (failing input).  A model whose second node is a model: with or
    without auxiliary variables the call raises [UnboundLocalError], not
    the [TypeError] the docstring of [build_cf_surrogate_posterior]
    announces for a nested prior; with two auxiliary variables it does so
    after two parameter sets have been constructed, inside the walk. *)
Lemma nested_prior_raises_no_TypeError :
  build_cf_surrogate_posterior default_registry split_pair zeros
                               nested_prior 2 (1#2) (Some 0) 0%nat
  = (Raise UnboundLocalError, 2%nat)
  /\ build_cf_surrogate_posterior default_registry split_pair zeros
                                  nested_prior 0 (1#2) (Some 0) 0%nat
     = (Raise UnboundLocalError, 0%nat)
  /\ fst (build_cf_surrogate_posterior default_registry split_pair zeros
                                       nested_prior 2 (1#2) (Some 0) 0%nat)
     <> Raise TypeError.
Proof.
  split; [vm_compute; reflexivity |].
  split; [vm_compute; reflexivity |].
  vm_compute. discriminate.
Qed.

(** ** Creation and reuse of the parameter sets *)

Lemma objects_cons (x : variables) (l : list variables) :
  objects (VarStruct (x :: l)) = objects x ++ objects (VarStruct l).
Proof. reflexivity. Qed.

Section Parameters.

Variable reg : registry.
Variable split_seed : seed -> seed * seed.
Variable sample : surrogate -> seed -> value.

Abbreviation cf_surrogate := (_cf_surrogate_for_distribution reg split_seed sample).

Lemma cf_surrogate_unfold (fuel : nat) (d : distribution) (base : base_fn)
      (vs0 : option variables) (k : Z) (g : option value) (seed0 : seed) :
  cf_surrogate (S fuel) d base vs0 k g seed0
  = if has_model_coroutine (substituted reg d) then
      _cf_surrogate_for_joint_distribution split_seed sample
        (fun d' vs' g' s' => cf_surrogate fuel d' base vs' 0 g' s')
        fuel (substituted reg d) base vs0 k seed0
    else
      _cf_convex_update_for_base_distribution
        (substituted reg d) (initial_prior_weight base)
        (base_num_auxiliary_variables base) g vs0 seed0.
Proof. reflexivity. Qed.

(** Reuse mode of the base builder: nothing is constructed and the
    surrogate is built over the very transform supplied. *)
Lemma base_builder_reuse_verbatim (dist : distribution) (w : Q) (k : Z)
      (g : option value) (vs : variables) (seed0 : seed) (h : heap) :
  snd (_cf_convex_update_for_base_distribution dist w k g (Some vs) seed0 h) = h
  /\ forall sp vs',
      fst (_cf_convex_update_for_base_distribution dist w k g (Some vs) seed0 h)
      = Ok (sp, vs') ->
      vs' = vs /\ bijector_of sp = Some vs.
Proof.
  unfold _cf_convex_update_for_base_distribution, bind, ret, lift, raise.
  destruct (0 <? k); [| simpl; split; [reflexivity |]].
  - destruct g as [[s q | items | items] |]; simpl;
      try (split; [reflexivity | discriminate]).
    destruct s as [| a [| b [| c s']]]; simpl; split;
      try reflexivity; intros sp vs' H; try discriminate;
      injection H as <- <-; split; reflexivity.
  - intros sp vs' H. injection H as <- <-. split; reflexivity.
Qed.

(** Construction mode of the base builder: exactly one object, the next
    of the heap. *)
Lemma base_builder_creates_one (dist : distribution) (w : Q) (k : Z)
      (g : option value) (seed0 : seed) (h h' : heap)
      (sp : surrogate) (vs : variables) :
  _cf_convex_update_for_base_distribution dist w k g None seed0 h
  = (Ok (sp, vs), h') ->
  exists bs, vs = Chain h bs /\ h' = S h /\ bijector_of sp = Some vs.
Proof.
  unfold _cf_convex_update_for_base_distribution, bind, ret, lift, raise, new_Chain.
  intros H.
  destruct (event_shape_tensor dist) as [es |]; [| discriminate].
  destruct (0 <? List.length es)%nat;
    [destruct (int_of_tensor es) as [n | e]; [| discriminate] |];
    (destruct (shape_add es k) as [extended_shape | e]; [| discriminate]);
    (destruct (new_Reshape [-1] extended_shape) as [reshape_in | e];
     [| discriminate]);
    (destruct (new_Reshape extended_shape [-1]) as [reshape_out | e];
     [| discriminate]);
    (destruct (0 <? k);
     [destruct g as [[s q | items | items] |]; simpl in H; try discriminate;
      destruct s as [| a [| b [| c s']]]; simpl in H; try discriminate |];
     injection H as <- <- <-; eexists;
     (split; [reflexivity |]); split; reflexivity).
Qed.

(** Reuse mode of the joint builder, and of the dispatcher above both. *)
Lemma joint_builder_reuse_heap
      (recur : distribution -> option variables -> option value -> seed ->
               M (surrogate * variables))
      (depth0 : nat) (dist : distribution) (base : base_fn) (vs : variables)
      (k : Z) (seed0 : seed) (h : heap) :
  snd (_cf_surrogate_for_joint_distribution split_seed sample recur depth0
         dist base (Some vs) k seed0 h) = h
  /\ forall sp vs',
      fst (_cf_surrogate_for_joint_distribution split_seed sample recur depth0
             dist base (Some vs) k seed0 h) = Ok (sp, vs') ->
      vs' = vs.
Proof.
  unfold _cf_surrogate_for_joint_distribution, bind, ret, lift, raise.
  destruct dist as [cls n es ps | b n d | u n p]; simpl;
    try (split; [reflexivity | discriminate]).
  destruct (truthy vs); [destruct (_model_flatten vs) |]; simpl;
    (split; [reflexivity |]); intros sp vs' H; try discriminate;
    injection H as <- <-; reflexivity.
Qed.

Lemma cf_surrogate_reuse_heap (fuel : nat) (d : distribution) (base : base_fn)
      (vs : variables) (k : Z) (g : option value) (seed0 : seed) (h : heap) :
  snd (cf_surrogate fuel d base (Some vs) k g seed0 h) = h
  /\ forall sp vs',
      fst (cf_surrogate fuel d base (Some vs) k g seed0 h) = Ok (sp, vs') ->
      vs' = vs.
Proof.
  destruct fuel as [| fuel].
  - simpl. split; [reflexivity | discriminate].
  - rewrite cf_surrogate_unfold.
    destruct (has_model_coroutine (substituted reg d)).
    + apply joint_builder_reuse_heap.
    + destruct (base_builder_reuse_verbatim
                  (substituted reg d) (initial_prior_weight base)
                  (base_num_auxiliary_variables base) g vs seed0 h)
        as [Hh Hv].
      split; [exact Hh |]. intros sp vs' H. apply (Hv sp vs' H).
Qed.

(** In construction mode a node met by the walker gets exactly one new
    object, or the walk fails. *)
Lemma cf_surrogate_creates_one (fuel : nat) (d : distribution) (base : base_fn)
      (g : option value) (seed0 : seed) (h h' : heap)
      (sp : surrogate) (vs : variables) :
  cf_surrogate fuel d base None 0 g seed0 h = (Ok (sp, vs), h') ->
  exists bs, vs = Chain h bs /\ h' = S h.
Proof.
  destruct fuel as [| fuel]; [discriminate |].
  rewrite cf_surrogate_unfold.
  destruct (has_model_coroutine (substituted reg d)) eqn:Hj.
  - destruct (substituted reg d) as [| | u n p]; try discriminate.
    rewrite joint_harvest_without_auxiliary_raises by lia. discriminate.
  - intros H. apply base_builder_creates_one in H.
    destruct H as [bs [Hvs [Hh _]]]. exists bs. split; assumption.
Qed.

Section Loop.

Variable fuel : nat.
Variable c : closure.

Abbreviation recur :=
  (fun d vs g s =>
     cf_surrogate fuel d (base_distribution_surrogate_fn c) vs 0 g s).

(** The harvest: every parameter set collected is an object constructed
    during the walk, in the order of construction. *)
Lemma harvest_loop_objects (p : program) :
  forall (seed_w : seed) (i : nat) (g : value) (h : heap) (seed_e : seed)
         (acc fv : list variables) (h' : heap),
    truthy_flat (flat_variables c) = false ->
    extract_loop split_seed sample
                 (posterior_loop split_seed recur c p seed_w i (Some g) h)
                 seed_e acc
    = (Ok fv, h') ->
    exists l, fv = acc ++ l
              /\ objects (VarStruct l) = seq h (List.length l)
              /\ h' = (h + List.length l)%nat.
Proof.
  induction p as [| was_root dist send_prior IH];
    intros seed_w i g h seed_e acc fv h' Hflat Hrun.
  - simpl in Hrun. injection Hrun as <- <-.
    exists []. rewrite app_nil_r, Nat.add_0_r. repeat split; reflexivity.
  - simpl in Hrun.
    destruct (split_seed seed_w) as [seed1 init_seed].
    assert (Hslot :
              match flat_variables c with
              | Some (v :: fv0) =>
                  match getitem (v :: fv0) i with
                  | Ok vs => Ok (Some vs)
                  | Raise e => Raise e
                  end
              | _ => Ok None
              end = Ok None).
    { destruct (flat_variables c) as [[| v fv0] |];
        simpl in Hflat; try discriminate; reflexivity. }
    rewrite Hslot in Hrun.
    destruct (cf_surrogate fuel dist (base_distribution_surrogate_fn c) None 0
                           (Some g) init_seed h) as [[[sp vs] | e] h1] eqn:Hnode.
    + apply cf_surrogate_creates_one in Hnode.
      destruct Hnode as [bs [-> ->]].
      rewrite Hflat in Hrun. simpl in Hrun.
      destruct (split_seed seed_e) as [seed_e1 local_seed].
      destruct (forwarded _ dist) as [v |e].
      * apply IH in Hrun; [| exact Hflat].
        destruct Hrun as [l [-> [Hobj ->]]].
        exists (Chain h bs :: l). rewrite <- app_assoc. simpl app.
        split; [reflexivity |]. split.
        -- rewrite objects_cons, Hobj. reflexivity.
        -- simpl. lia.
      * simpl in Hrun. discriminate.
    + simpl in Hrun. discriminate.
Qed.

(** The walk over supplied parameter sets constructs nothing. *)
Lemma reuse_loop_allocation_free (p : program) :
  forall (seed_w : seed) (i : nat) (g : option value) (h : heap),
    truthy_flat (flat_variables c) = true ->
    allocation_free (posterior_loop split_seed recur c p seed_w i g h) h.
Proof.
  induction p as [| was_root dist send_prior IH];
    intros seed_w i g h Hflat.
  - reflexivity.
  - simpl.
    destruct (split_seed seed_w) as [seed1 init_seed].
    destruct (flat_variables c) as [[| v fv0] |] eqn:Hfv;
      simpl in Hflat; try discriminate.
    destruct (getitem (v :: fv0) i) as [vs | e]; [| reflexivity].
    destruct g as [g |]; [| reflexivity].
    destruct (cf_surrogate_reuse_heap fuel dist (base_distribution_surrogate_fn c)
                                      vs 0 (Some g) init_seed h) as [Hh _].
    destruct (cf_surrogate fuel dist (base_distribution_surrogate_fn c)
                           (Some vs) 0 (Some g) init_seed h)
      as [[[sp vs'] | e] h1]; simpl in Hh; subst h1; [| reflexivity].
    simpl. split; [reflexivity |].
    intros value_out h2.
    destruct (forwarded value_out dist) as [v' | e]; [| reflexivity].
    apply IH. try rewrite Hfv. reflexivity.
Qed.

Lemma reuse_generator_allocation_free (h : heap) :
  truthy_flat (flat_variables c) = true ->
  allocation_free (posterior_generator split_seed recur c h) h.
Proof.
  intros Hflat. unfold posterior_generator.
  destruct (prior_coroutine c) as [| was_root dist send_prior] eqn:Hp;
    [reflexivity |].
  destruct (0 <? num_auxiliary_variables c).
  - destruct (flat_variables c) as [[| v fv0] |] eqn:Hfv;
      simpl in Hflat; try discriminate.
    cbn -[posterior_loop]. split; [reflexivity |]. intros value_out h2.
    apply reuse_loop_allocation_free. try rewrite Hfv. reflexivity.
  - apply reuse_loop_allocation_free. exact Hflat.
Qed.

End Loop.

End Parameters.

Section Harvest.

Variable reg : registry.
Variable split_seed : seed -> seed * seed.
Variable sample : surrogate -> seed -> value.

Abbreviation cf_surrogate' := (_cf_surrogate_for_distribution reg split_seed sample).

(** The joint builder without variables: what it returns is the joint
    surrogate over the parameter sets the harvest has constructed, one
    for the auxiliary node and one for each node walked. *)
Lemma joint_harvest_objects (fuel : nat) (u : bool) (name : string)
      (p : program) (base : base_fn) (k : Z) (seed0 : seed) (h h' : heap)
      (sp : surrogate) (vs : variables) :
  _cf_surrogate_for_joint_distribution split_seed sample
    (fun d vs' g s => cf_surrogate' fuel d base vs' 0 g s)
    fuel (Joint u name p) base None k seed0 h
  = (Ok (sp, vs), h') ->
  exists v fv,
    vs = VarStruct (v :: fv)
    /\ sp = JointDistributionCoroutine
              u name (mk_closure p (Some (v :: fv)) k base None fuel)
    /\ objects vs = seq h (List.length (v :: fv))
    /\ h' = (h + List.length (v :: fv))%nat.
Proof.
  destruct (Z_le_gt_dec k 0) as [Hk | Hk].
  - rewrite joint_harvest_without_auxiliary_raises by exact Hk. discriminate.
  - assert (Hpos : (0 <? k) = true) by (apply Z.ltb_lt; lia).
    unfold _cf_surrogate_for_joint_distribution, bind,
      _extract_variables_from_coroutine_model, posterior_generator.
    cbn [prior_coroutine flat_variables num_auxiliary_variables default_seed].
    destruct p as [| was_root dist send_prior]; [discriminate |].
    rewrite Hpos. cbn -[posterior_loop].
    destruct (split_seed seed0) as [seed1 local_seed].
    match goal with
    | |- context [extract_loop _ _ ?g ?s ?acc] =>
        destruct (extract_loop split_seed sample g s acc) as [[fv | e] h1] eqn:Hrun
    end; [| discriminate].
    apply (harvest_loop_objects reg split_seed sample fuel) in Hrun;
      [| reflexivity].
    destruct Hrun as [l [-> [Hobj ->]]].
    cbn. intros H. injection H as <- <- <-.
    do 2 eexists. split; [reflexivity |]. split; [reflexivity |].
    split.
    + rewrite objects_cons, Hobj. reflexivity.
    + simpl. lia.
Qed.

(** C2.  Whenever [build_cf_surrogate_posterior] returns a surrogate:
    the parameter objects it tracks are exactly the objects constructed
    during the call, each once ([h' - h] constructions, [h' - h] distinct
    objects); a joint surrogate holds them as its flat variables, and
    running its model, from any heap and with any values, constructs
    nothing.  More generally, a builder given a parameter set leaves the
    heap as it is and returns that set, the base builder building its
    surrogate over it. *)
Theorem parameters_are_created_once
        (prior : distribution) (k : Z) (w : Q) (seed0 : seed) (h h' : heap)
        (sp : surrogate) (vs : variables) :
  build_cf_surrogate_posterior reg split_seed sample prior k w seed0 h
  = (Ok (sp, vs), h') ->
  (objects vs = seq h (h' - h)
   /\ NoDup (objects vs)
   /\ List.length (objects vs) = (h' - h)%nat)
  /\ (forall a n c,
         sp = JointDistributionCoroutine a n c ->
         flat_variables c = Some (match vs with
                                  | VarStruct items => items
                                  | Chain _ _ => []
                                  end)
         /\ truthy_flat (flat_variables c) = true
         /\ forall h0, allocation_free (model_fn reg split_seed sample c h0) h0)
  /\ (forall dist w1 k1 g vs1 seed1 h1,
         snd (_cf_convex_update_for_base_distribution
                dist w1 k1 g (Some vs1) seed1 h1) = h1
         /\ forall sp1 vs1',
             fst (_cf_convex_update_for_base_distribution
                    dist w1 k1 g (Some vs1) seed1 h1) = Ok (sp1, vs1') ->
             vs1' = vs1 /\ bijector_of sp1 = Some vs1)
  /\ (forall recur depth0 dist base vs1 k1 seed1 h1,
         snd (_cf_surrogate_for_joint_distribution
                split_seed sample recur depth0 dist base (Some vs1) k1 seed1 h1)
         = h1
         /\ forall sp1 vs1',
             fst (_cf_surrogate_for_joint_distribution
                    split_seed sample recur depth0 dist base (Some vs1) k1
                    seed1 h1) = Ok (sp1, vs1') ->
             vs1' = vs1).
Proof.
  intros Hbuild.
  assert (Hobjects :
            objects vs = seq h (h' - h)
            /\ forall a n c,
                sp = JointDistributionCoroutine a n c ->
                flat_variables c = Some (match vs with
                                         | VarStruct items => items
                                         | Chain _ _ => []
                                         end)
                /\ truthy_flat (flat_variables c) = true).
  { unfold build_cf_surrogate_posterior in Hbuild.
    change recursion_limit with (S 999) in Hbuild.
    rewrite cf_surrogate_unfold in Hbuild.
    destruct (has_model_coroutine (substituted reg prior)) eqn:Hj.
    - destruct (substituted reg prior) as [| | u name p]; try discriminate.
      apply joint_harvest_objects in Hbuild.
      destruct Hbuild as [v [fv [-> [-> [Hobj ->]]]]].
      split.
      + rewrite Hobj. f_equal. lia.
      + intros a n c Hc. injection Hc as _ _ <-. split; reflexivity.
    - apply base_builder_creates_one in Hbuild.
      destruct Hbuild as [bs [-> [-> Hbij]]].
      split.
      + replace (S h - h)%nat with 1%nat by lia. reflexivity.
      + intros a n c ->. discriminate. }
  destruct Hobjects as [Hobj Hjoint].
  split; [| split; [| split]].
  - split; [exact Hobj |]. rewrite Hobj. split.
    + apply seq_NoDup.
    + apply length_seq.
  - intros a n c Hc. destruct (Hjoint a n c Hc) as [Hfv Htruthy].
    split; [exact Hfv |]. split; [exact Htruthy |].
    intros h0. unfold model_fn.
    apply reuse_generator_allocation_free. exact Htruthy.
  - intros. apply base_builder_reuse_verbatim.
  - intros. apply joint_builder_reuse_heap.
Qed.

End Harvest.

(** ** The harvest followed by the assembly *)

(** Without variables the joint builder runs the harvest and hands what
    it collected to itself; the second call is made without a seed. *)
Lemma joint_builder_harvest_then_assemble
      (split_seed : seed -> seed * seed) (sample : surrogate -> seed -> value)
      (recur : distribution -> option variables -> option value -> seed ->
               M (surrogate * variables))
      (depth0 : nat) (u : bool) (name : string) (p : program) (base : base_fn)
      (k : Z) (seed0 : seed) :
  _cf_surrogate_for_joint_distribution split_seed sample recur depth0
    (Joint u name p) base None k seed0
  = bind (_extract_variables_from_coroutine_model
            split_seed sample
            (posterior_generator split_seed recur
                                 (mk_closure p None k base seed0 depth0))
            seed0)
         (fun fv =>
            _cf_surrogate_for_joint_distribution split_seed sample recur depth0
              (Joint u name p) base (Some (VarStruct fv)) k None).
Proof. reflexivity. Qed.

(** ** Event shapes of what the walker yields *)

Lemma reshape_flatten_vector (m : Z) :
  reshape_event_shape [-1] [m] [m] = Some [m].
Proof.
  unfold reshape_event_shape. cbn.
  rewrite Z.eqb_refl, orb_true_r. cbn.
  rewrite Z.div_1_r, !Z.mul_1_r, Z.eqb_refl. reflexivity.
Qed.

Lemma reshape_unflatten_vector (m : Z) :
  0 <= m -> reshape_event_shape [m] [-1] [m] = Some [m].
Proof.
  intros Hm. unfold reshape_event_shape. cbn.
  assert (Hne : (m =? -1) = false) by (apply Z.eqb_neq; lia).
  rewrite Hne. cbn. rewrite Z.eqb_refl. reflexivity.
Qed.

Lemma highway_vector (w m : Z) :
  w = m -> highway_event_shape w [m] = Some [m].
Proof.
  intros ->. unfold highway_event_shape. cbn. rewrite Z.eqb_refl. reflexivity.
Qed.

Lemma split_auxiliary (m k : Z) :
  0 < k -> split_event_shape [-1; k] [m + k] = Some [[m]; [k]].
Proof.
  intros Hk. unfold split_event_shape. cbn.
  assert (Hne : (k =? -1) = false) by (apply Z.eqb_neq; lia).
  rewrite Hne. cbn.
  replace (m + k - (k + 0) + (k + 0) =? m + k) with true
    by (symmetry; apply Z.eqb_eq; lia).
  replace (m + k - (k + 0)) with m by lia. reflexivity.
Qed.

Lemma chain_scalar (k t : Z) (w : Q) (s : seed) :
  chain_event_shape (base_chain [] k w s) [t] = Some [t].
Proof. reflexivity. Qed.

Lemma chain_vector (n k : Z) (w : Q) (s : seed) :
  0 <= n -> 0 < k -> n + k < 2147483648 ->
  chain_event_shape (base_chain [n] k w s) [n + k] = Some [n + k].
Proof.
  intros Hn Hk Hfit. unfold chain_event_shape, base_chain, shape_sum.
  cbn [fold_right forward_event_shape map reduce_prod].
  rewrite !(@int32_id (n + k)) by lia.
  rewrite Z.mul_1_r, !(@int32_id (n + k)) by lia.
  rewrite reshape_flatten_vector.
  rewrite !highway_vector by reflexivity.
  apply reshape_unflatten_vector. lia.
Qed.

Lemma extends_of_room (k : Z) (es : list Z) :
  0 < k ->
  Forall (fun n => 0 <= n) es ->
  Forall (fun n => n + k < 2147483648) es ->
  extends es k.
Proof.
  intros Hk Hdims Hroom. unfold extends.
  rewrite Forall_forall in *. intros n Hn.
  specialize (Hdims n Hn). specialize (Hroom n Hn). lia.
Qed.

Lemma leaf_surrogate_event_shape (d : distribution) (es : list Z) (k : Z)
      (sh : list Z) (q : nat) (front : list Z) (vs : variables) :
  event_shape_tensor d = Some es ->
  (List.length es <= 1)%nat ->
  Forall (fun n => 0 <= n) es ->
  0 < k ->
  Forall (fun n => n + k < 2147483648) es ->
  rev sh = k :: front ->
  fits k es vs ->
  event_shape (cascading_flows d k (Tensor sh q) vs)
  = Some (Parts [[reduce_prod es]; [k]]).
Proof.
  intros Hd Hrank Hdims Hk Hroom Hsh [o [w [s ->]]].
  unfold cascading_flows.
  assert (Hpos : (0 <? k) = true) by (apply Z.ltb_lt; lia). rewrite Hpos.
  cbn [event_shape batch_shape_of]. rewrite Hd.
  unfold lastn. rewrite Hsh.
  change (rev (firstn (Z.to_nat 1) (k :: front)) ++ []) with [k].
  cbn [option_map reduce_prod fold_right].
  destruct es as [| n [| n' es']]; [| | simpl in Hrank; lia].
  - cbn [reduce_prod fold_right]. rewrite chain_scalar. cbn [option_map].
    replace (1 + (k * 1 + 0)) with (1 + k) by lia.
    rewrite split_auxiliary by exact Hk. reflexivity.
  - cbn [reduce_prod fold_right].
    replace (n * 1 + (k * 1 + 0)) with (n + k) by lia.
    inversion Hdims; subst. inversion Hroom; subst.
    rewrite chain_vector by assumption. cbn [option_map].
    rewrite split_auxiliary by exact Hk.
    rewrite Z.mul_1_r. reflexivity.
Qed.

Lemma auxiliary_event_shape (k : Z) (o : nat) (s : seed) :
  event_shape (node_dist (auxiliary_node k (Chain o (auxiliary_chain k s))))
  = Some (Single [k]).
Proof.
  cbn. rewrite !Z.eqb_refl. cbn. rewrite !Z.eqb_refl. cbn.
  rewrite !Z.eqb_refl. reflexivity.
Qed.

Lemma well_shaped_single (g : value) (k : Z) :
  well_shaped g (Single [k]) = true ->
  exists sh q front, g = Tensor sh q /\ rev sh = k :: front.
Proof.
  destruct g as [sh q | |]; simpl; try discriminate.
  unfold ends_with. simpl. intros H.
  destruct (rev sh) as [| k' front] eqn:Hrev; [discriminate |].
  simpl in H. apply andb_prop in H. destruct H as [H _].
  apply Z.eqb_eq in H. subst k'.
  exists sh, q, front. split; [reflexivity | exact Hrev].
Qed.

(** A drawn vector of [k] auxiliary variables: a tensor of rank one or
    two whose last dimension is [k]. *)
Lemma drawn_single (g : value) (k : Z) :
  drawn g (Single [k]) = true ->
  exists sh q front,
    g = Tensor sh q /\ rev sh = k :: front /\ rank_1_or_2 (Tensor sh q) = true.
Proof.
  unfold drawn. intros H. apply andb_prop in H. destruct H as [Hw Hr].
  destruct (well_shaped_single _ _ Hw) as [sh [q [front [-> Hsh]]]].
  exists sh, q, front. split; [reflexivity |]. split; [exact Hsh |].
  cbn [List.length] in Hr. apply Nat.leb_le in Hr.
  assert (Hlen : List.length sh = S (List.length front)).
  { rewrite <- length_rev, Hsh. reflexivity. }
  unfold rank_1_or_2. apply andb_true_intro. split; apply Nat.leb_le; lia.
Qed.

Lemma drawn_well_shaped (v : value) (e : event_struct) :
  drawn v e = true -> well_shaped v e = true.
Proof.
  unfold drawn. intros H. apply andb_prop in H. exact (proj1 H).
Qed.

Lemma event_shape_len_leaf (d : distribution) (es : list Z) :
  event_shape_tensor d = Some es -> event_shape_len d = List.length es.
Proof.
  induction d as [cls n es0 ps | b n d IH | u n p]; simpl; intros H.
  - injection H as <-. symmetry. apply length_map.
  - apply IH. exact H.
  - discriminate.
Qed.

Lemma leaf_has_no_model_coroutine (d : distribution) (es : list Z) :
  event_shape_tensor d = Some es -> has_model_coroutine d = false.
Proof.
  destruct d; simpl; [reflexivity | reflexivity | discriminate].
Qed.

(** A value sampled from a split leaf surrogate can be forwarded to the
    prior. *)
Lemma forwarded_split_value (v : value) (d : distribution) (es : list Z) (k : Z) :
  event_shape_tensor d = Some es ->
  (List.length es <= 1)%nat ->
  well_shaped v (Parts [[reduce_prod es]; [k]]) = true ->
  exists v', forwarded v d = Ok v'.
Proof.
  intros Hd Hrank Hv.
  destruct v as [sh q | items | items]; simpl in Hv; try discriminate.
  destruct items as [| v0 items]; simpl in Hv; [discriminate |].
  apply andb_prop in Hv. destruct Hv as [Hv0 _].
  simpl. rewrite (event_shape_len_leaf _ Hd).
  destruct es as [| n es']; simpl.
  - destruct v0 as [sh q | |]; simpl in Hv0; try discriminate.
    unfold ends_with in Hv0. cbn [reduce_prod fold_right rev app] in Hv0.
    destruct (rev sh) as [| one front] eqn:Hrev; [discriminate |].
    cbn [starts_with] in Hv0. apply andb_prop in Hv0. destruct Hv0 as [H1 _].
    apply Z.eqb_eq in H1. subst one.
    simpl. rewrite Hrev. eexists. reflexivity.
  - eexists. reflexivity.
Qed.

Lemma skipn_cons_nth_error (A : Type) (l : list A) (i : nat) (x : A) (rest : list A) :
  skipn i l = x :: rest -> nth_error l i = Some x /\ skipn (S i) l = rest.
Proof.
  revert l. induction i as [| i IH]; intros [| y l] H; simpl in H;
    try discriminate.
  - injection H as -> ->. split; reflexivity.
  - apply IH in H. exact H.
Qed.

Section LeafPriors.

Variable reg : registry.
Variable split_seed : seed -> seed * seed.
Variable sample : surrogate -> seed -> value.

(** What the sampler draws from a distribution has the structure of its
    event. *)
Hypothesis sample_drawn :
  forall d s e, event_shape d = Some e -> drawn (sample d s) e = true.

Abbreviation cf_surrogate3 := (_cf_surrogate_for_distribution reg split_seed sample).

Section LeafLoop.

Variable fuel : nat.
Variable c : closure.
Variable k : Z.

Hypothesis k_positive : 0 < k.
Hypothesis k_fits : k < 2147483648.
Hypothesis walker_k : num_auxiliary_variables c = k.
Hypothesis base_k :
  base_num_auxiliary_variables (base_distribution_surrogate_fn c) = k.

Abbreviation recur3 :=
  (fun d vs g s =>
     cf_surrogate3 (S fuel) d (base_distribution_surrogate_fn c) vs 0 g s).

Lemma leaf_node_construct (d : distribution) (es : list Z) (sh : list Z)
      (q : nat) (seed0 : seed) (h : heap) :
  event_shape_tensor (substituted reg d) = Some es ->
  (List.length es <= 1)%nat ->
  extends es k ->
  rank_1_or_2 (Tensor sh q) = true ->
  let vs := Chain h (base_chain es k (initial_prior_weight
                                        (base_distribution_surrogate_fn c)) seed0) in
  recur3 d None (Some (Tensor sh q)) seed0 h
  = (Ok (cascading_flows (substituted reg d) k (Tensor sh q) vs, vs), S h).
Proof.
  intros Hes Hrank Hext Hrk vs. cbv beta.
  rewrite cf_surrogate_unfold, (leaf_has_no_model_coroutine _ Hes), base_k.
  apply base_builder_construct;
    [exact Hes | exact Hrank | lia | exact Hext | intros _; exact Hrk].
Qed.

Lemma leaf_node_reuse (d : distribution) (es : list Z) (sh : list Z)
      (q : nat) (vs : variables) (seed0 : seed) (h : heap) :
  event_shape_tensor (substituted reg d) = Some es ->
  rank_1_or_2 (Tensor sh q) = true ->
  recur3 d (Some vs) (Some (Tensor sh q)) seed0 h
  = (Ok (cascading_flows (substituted reg d) k (Tensor sh q) vs, vs), h).
Proof.
  intros Hes Hrk. cbv beta.
  rewrite cf_surrogate_unfold, (leaf_has_no_model_coroutine _ Hes), base_k.
  apply base_builder_reuse. intros _. exact Hrk.
Qed.

(** The harvest over a prior of leaves succeeds and constructs, for each
    node in turn, a parameter set fitting its event shape. *)
Lemma harvest_fits (p : program) (shapes : list (list Z)) :
  leaf_chain reg p shapes ->
  truthy_flat (flat_variables c) = false ->
  room_for k shapes ->
  forall (seed_w : seed) (i : nat) (sh : list Z) (q : nat) (front : list Z)
         (h : heap) (seed_e : seed) (acc : list variables),
    rev sh = k :: front ->
    rank_1_or_2 (Tensor sh q) = true ->
    exists l,
      extract_loop split_seed sample
                   (posterior_loop split_seed recur3 c p seed_w i
                                   (Some (Tensor sh q)) h)
                   seed_e acc
      = (Ok (acc ++ l), (h + List.length l)%nat)
      /\ Forall2 (fits k) shapes l.
Proof.
  intros Hchain Hflat.
  induction Hchain as [| is_root d send es shapes Hd Hsub Hrank Hdims Hrest IH];
    intros Hroom seed_w i sh q front h seed_e acc Hsh Hrk.
  - exists []. simpl. rewrite app_nil_r, Nat.add_0_r.
    split; [reflexivity | constructor].
  - apply Forall_cons_iff in Hroom. destruct Hroom as [Hroom_es Hroom].
    cbn [posterior_loop].
    destruct (split_seed seed_w) as [seed1 init_seed].
    replace (match flat_variables c with
             | Some (v :: fv) =>
                 match getitem (v :: fv) i with
                 | Ok vs => Ok (Some vs)
                 | Raise e => Raise e
                 end
             | _ => Ok None
             end) with (@Ok (option variables) None)
      by (destruct (flat_variables c) as [[| v fv] |];
          simpl in Hflat; try discriminate; reflexivity).
    rewrite (leaf_node_construct d sh q init_seed h Hsub Hrank
                                 (extends_of_room k_positive Hdims Hroom_es) Hrk).
    rewrite Hflat. cbn [extract_loop node_dist].
    destruct (split_seed seed_e) as [seed_e1 local_seed].
    set (vs := Chain h _).
    set (sp := cascading_flows _ _ _ vs).
    assert (Hshape : event_shape sp = Some (Parts [[reduce_prod es]; [k]])).
    { apply leaf_surrogate_event_shape with (front := front);
        try assumption.
      do 3 eexists. reflexivity. }
    pose proof (drawn_well_shaped _ _ (sample_drawn sp local_seed Hshape)) as Hv.
    destruct (@forwarded_split_value _ d es k Hd Hrank Hv) as [v' Hfwd].
    rewrite Hfwd.
    destruct (IH v' Hroom seed1 (S i) sh q front (S h) seed_e1 (acc ++ [vs])
                 Hsh Hrk)
      as [l [Hrun Hfits]].
    exists (vs :: l). rewrite Hrun. split.
    + rewrite <- app_assoc. simpl. f_equal. f_equal. lia.
    + constructor; [| exact Hfits]. do 3 eexists. reflexivity.
Qed.

(** The walk over fitting parameter sets yields one split node per node
    of the prior, in the order of the prior. *)
Lemma reuse_mirrors (p : program) (shapes : list (list Z)) :
  leaf_chain reg p shapes ->
  room_for k shapes ->
  forall (fv : list variables),
    flat_variables c = Some fv ->
    forall (seed_w : seed) (i : nat) (sh : list Z) (q : nat) (front : list Z)
           (h : heap),
      rev sh = k :: front ->
      rank_1_or_2 (Tensor sh q) = true ->
      Forall2 (fits k) shapes (skipn i fv) ->
      mirrors (split_leaf_node k) i p
              (posterior_loop split_seed recur3 c p seed_w i
                              (Some (Tensor sh q)) h).
Proof.
  intros Hchain Hroom0 fv Hfv. revert Hroom0.
  induction Hchain as [| is_root d send es shapes Hd Hsub Hrank Hdims Hrest IH];
    intros Hroom seed_w i sh q front h Hsh Hrk Hfits.
  - exists h. reflexivity.
  - apply Forall_cons_iff in Hroom. destruct Hroom as [Hroom_es Hroom].
    cbn [posterior_loop mirrors].
    destruct (split_seed seed_w) as [seed1 init_seed].
    destruct (skipn i fv) as [| vs rest] eqn:Heq2; [inversion Hfits |].
    apply Forall2_cons_iff in Hfits. destruct Hfits as [Hvs Hrestfits].
    destruct (skipn_cons_nth_error _ _ Heq2) as [Hnth Hskip].
    assert (Hne : exists v0 fv0, fv = v0 :: fv0).
    { destruct fv as [| v0 fv0]; [destruct i; discriminate |].
      do 2 eexists. reflexivity. }
    destruct Hne as [v0 [fv0 Hfv0]].
    rewrite Hfv, Hfv0. rewrite <- Hfv0.
    unfold getitem. rewrite Hnth.
    rewrite (leaf_node_reuse d sh q vs init_seed h Hsub Hrk).
    rewrite walker_k.
    assert (Hzero : (k =? 0) = false) by (apply Z.eqb_neq; lia).
    rewrite Hzero, andb_false_r.
    do 3 eexists. split; [reflexivity |]. split.
    + rewrite Hfv0. cbn [truthy_flat yielded_node].
      split; [reflexivity |].
      exists es. split; [exact Hd |].
      apply leaf_surrogate_event_shape with (front := front); assumption.
    + intros v v' h' Hfwd. rewrite Hfwd.
      apply (IH v' Hroom seed1 (S i) sh q front h' Hsh Hrk).
      rewrite Hskip. exact Hrestfits.
Qed.

End LeafLoop.

(** Driven by sampling, a generator that mirrors a prior of leaves
    yields one node per node of the prior, each untagged and of the
    event of two parts. *)
Lemma mirrors_structure (k : Z) (p : program) (shapes : list (list Z)) :
  leaf_chain reg p shapes ->
  forall (i : nat) (gen : generator) (seed0 : seed),
    mirrors (split_leaf_node k) i p gen ->
    map node_shape (yielded_nodes split_seed sample gen seed0)
    = map (fun es => (false, Some (Parts [[reduce_prod es]; [k]]))) shapes.
Proof.
  intros Hchain.
  induction Hchain as [| is_root d send es shapes Hd Hsub Hrank Hdims Hrest IH];
    intros i gen seed0 Hm.
  - destruct Hm as [h ->]. reflexivity.
  - destruct Hm as [y [h [resume [-> [[Hroot [es' [Hd' Hshape]]] Hnext]]]]].
    rewrite Hd in Hd'. injection Hd' as <-.
    cbn [yielded_nodes].
    destruct (split_seed seed0) as [seed1 local_seed].
    cbn [map]. unfold node_shape at 1. rewrite Hroot, Hshape. f_equal.
    pose proof (drawn_well_shaped _ _ (sample_drawn _ local_seed Hshape)) as Hv.
    destruct (@forwarded_split_value _ d es k Hd Hrank Hv) as [v' Hfwd].
    apply (IH v' (S i)). apply (Hnext _ v' h Hfwd).
Qed.

(** The joint builder on a prior of leaves: the harvest constructs the
    auxiliary parameter set and one fitting set per node, and the
    surrogate is assembled over them, its generator without a seed. *)
Lemma joint_builder_leaf_prior (fuel : nat) (u : bool) (name : string)
      (p : program) (es : list Z) (shapes : list (list Z)) (base : base_fn)
      (k : Z) (seed0 : seed) (h : heap) :
  leaf_chain reg p (es :: shapes) ->
  0 < k < 2147483648 ->
  room_for k (es :: shapes) ->
  base_num_auxiliary_variables base = k ->
  exists fv,
    _cf_surrogate_for_joint_distribution split_seed sample
      (fun d vs g s => cf_surrogate3 (S fuel) d base vs 0 g s)
      (S fuel) (Joint u name p) base None k seed0 h
    = (Ok (JointDistributionCoroutine
             u name
             (mk_closure p (Some (Chain h (auxiliary_chain k seed0) :: fv))
                         k base None (S fuel)),
           VarStruct (Chain h (auxiliary_chain k seed0) :: fv)),
       (S h + List.length fv)%nat)
    /\ Forall2 (fits k) (es :: shapes) fv.
Proof.
  intros Hchain [Hk Hk32] Hroom Hbase.
  assert (Hpos : (0 <? k) = true) by (apply Z.ltb_lt; lia).
  rewrite joint_builder_harvest_then_assemble.
  unfold bind, _extract_variables_from_coroutine_model, posterior_generator.
  cbn [prior_coroutine flat_variables num_auxiliary_variables default_seed].
  destruct p as [| is_root d send]; [inversion Hchain |].
  rewrite Hpos.
  cbn -[posterior_loop].
  destruct (split_seed seed0) as [seed1 local_seed].
  set (eps := TransformedDistribution _ (Chain h _)).
  assert (Heps : event_shape eps = Some (Single [k]))
    by (exact (auxiliary_event_shape k h seed0)).
  pose proof (sample_drawn eps local_seed Heps) as Hg.
  destruct (drawn_single _ _ Hg) as [sh [q [front [-> [Hsh Hrk]]]]].
  destruct (@harvest_fits fuel
              (mk_closure (Yield is_root d send) None k base seed0 (S fuel))
              k Hk Hk32 Hbase _ _ Hchain eq_refl Hroom
              seed0 1%nat sh q front (S h) seed1
              [Chain h (auxiliary_chain k seed0)] Hsh Hrk)
    as [l [Hrun Hfits]].
  exists l.
  match type of Hrun with
  | ?lhs = _ =>
      match goal with
      | |- context [extract_loop ?fa ?fb ?gen ?sd ?acc] =>
          change (extract_loop fa fb gen sd acc) with lhs
      end
  end.
  rewrite Hrun. split; [reflexivity | exact Hfits].
Qed.

(** The model of a surrogate assembled over fitting parameter sets: it
    yields the root-tagged auxiliary node, constructing nothing, and
    then mirrors the prior. *)
Lemma leaf_surrogate_model (fuel : nat) (p : program) (es : list Z)
      (shapes : list (list Z)) (k : Z) (w : Q) (aux_seed seed1 : seed)
      (o : nat) (fv : list variables) (h0 : heap) :
  leaf_chain reg p (es :: shapes) ->
  0 < k < 2147483648 ->
  room_for k (es :: shapes) ->
  Forall2 (fits k) (es :: shapes) fv ->
  let c := mk_closure p (Some (Chain o (auxiliary_chain k aux_seed) :: fv))
                      k (mk_base_fn w k) seed1 (S fuel) in
  exists y resume,
    model_fn reg split_seed sample c h0 = GYield y h0 resume
    /\ node_is_root (yielded_node y) = true
    /\ event_shape (node_dist (yielded_node y)) = Some (Single [k])
    /\ forall g h1,
        drawn g (Single [k]) = true ->
        mirrors (split_leaf_node k) 1 p (resume g h1).
Proof.
  intros Hchain [Hk Hk32] Hroom Hfits c.
  assert (Hpos : (0 <? k) = true) by (apply Z.ltb_lt; lia).
  set (aux := Chain o (auxiliary_chain k aux_seed)) in *.
  unfold model_fn, posterior_generator.
  assert (Hp : exists is_root d send, p = Yield is_root d send).
  { destruct p as [| is_root d send]; [inversion Hchain |].
    do 3 eexists. reflexivity. }
  destruct Hp as [is_root [d [send Hp]]].
  replace (prior_coroutine c) with (Yield is_root d send)
    by (rewrite <- Hp; reflexivity).
  rewrite <- Hp.
  replace (num_auxiliary_variables c) with k by reflexivity.
  rewrite Hpos.
  replace (flat_variables c) with (Some (aux :: fv)) by reflexivity.
  cbn [ret truthy_flat yielded_node node_is_root node_dist].
  do 2 eexists. split; [reflexivity |].
  split; [reflexivity |].
  split; [exact (auxiliary_event_shape k o aux_seed) |].
  intros g h1 Hg.
  destruct (drawn_single _ _ Hg) as [sh [q [front [-> [Hsh Hrk]]]]].
  eapply (@reuse_mirrors fuel c k Hk eq_refl eq_refl
            p (es :: shapes) Hchain Hroom (aux :: fv) eq_refl
            seed1 1%nat sh q front h1 Hsh Hrk).
  exact Hfits.
Qed.

(** Run by sampling, that model yields the auxiliary node and one node
    per node of the prior, with these tags and event shapes. *)
Lemma leaf_surrogate_structure (fuel : nat) (p : program) (es : list Z)
      (shapes : list (list Z)) (k : Z) (w : Q) (aux_seed seed1 seed2 : seed)
      (o : nat) (fv : list variables) (h0 : heap) :
  leaf_chain reg p (es :: shapes) ->
  0 < k < 2147483648 ->
  room_for k (es :: shapes) ->
  Forall2 (fits k) (es :: shapes) fv ->
  map node_shape
      (yielded_nodes
         split_seed sample
         (model_fn reg split_seed sample
                   (mk_closure p (Some (Chain o (auxiliary_chain k aux_seed) :: fv))
                               k (mk_base_fn w k) seed1 (S fuel))
                   h0)
         seed2)
  = leaf_surrogate_shapes k (es :: shapes).
Proof.
  intros Hchain Hk Hroom Hfits.
  destruct (@leaf_surrogate_model fuel p es shapes k w aux_seed seed1 o fv h0
              Hchain Hk Hroom Hfits)
    as [y [resume [-> [Hroot [Hshape Hmirrors]]]]].
  cbn [yielded_nodes].
  destruct (split_seed seed2) as [seed3 local_seed].
  unfold leaf_surrogate_shapes. cbn [map].
  unfold node_shape at 1. rewrite Hroot, Hshape. f_equal.
  apply (@mirrors_structure k p (es :: shapes) Hchain 1%nat).
  apply Hmirrors. apply sample_drawn. exact Hshape.
Qed.


End LeafPriors.


(** ** Two calls *)

Section TwoCalls.

Variable reg : registry.

(** The draws of the first call and those of the second. *)
Variable split_seed1 : seed -> seed * seed.
Variable sample1 : surrogate -> seed -> value.
Variable split_seed2 : seed -> seed * seed.
Variable sample2 : surrogate -> seed -> value.

Hypothesis sample1_drawn :
  forall d s e, event_shape d = Some e -> drawn (sample1 d s) e = true.
Hypothesis sample2_drawn :
  forall d s e, event_shape d = Some e -> drawn (sample2 d s) e = true.


End TwoCalls.


(** ** The theorems at concrete inputs *)

Lemma starts_with_refl (l : list Z) : starts_with l l = true.
Proof.
  induction l as [| x l IH]; simpl; [reflexivity |].
  rewrite Z.eqb_refl. exact IH.
Defined.

Lemma zeros_well_shaped (d : surrogate) (s : seed) (e : event_struct) :
  event_shape d = Some e -> well_shaped (zeros d s) e = true.
Proof.
  intros H. unfold zeros. rewrite H. clear H. destruct e as [es | ps]; simpl.
  - apply starts_with_refl.
  - induction ps as [| p ps IH]; simpl; [reflexivity |].
    unfold ends_with. rewrite starts_with_refl. exact IH.
Defined.

Lemma zeros_drawn (d : surrogate) (s : seed) (e : event_struct) :
  event_shape d = Some e -> drawn (zeros d s) e = true.
Proof.
  intros H. unfold drawn. rewrite (zeros_well_shaped d s H).
  unfold zeros. rewrite H. destruct e as [es | ps]; simpl; [| reflexivity].
  apply Nat.leb_le. lia.
Defined.

Lemma ones_well_shaped (d : surrogate) (s : seed) (e : event_struct) :
  event_shape d = Some e -> well_shaped (ones d s) e = true.
Proof.
  intros H. unfold ones. rewrite H. clear H. destruct e as [es | ps]; simpl.
  - apply starts_with_refl.
  - induction ps as [| p ps IH]; simpl; [reflexivity |].
    unfold ends_with. rewrite starts_with_refl. exact IH.
Defined.

Lemma ones_drawn (d : surrogate) (s : seed) (e : event_struct) :
  event_shape d = Some e -> drawn (ones d s) e = true.
Proof.
  intros H. unfold drawn. rewrite (ones_well_shaped d s H).
  unfold ones. rewrite H. destruct e as [es | ps]; simpl; [| reflexivity].
  apply Nat.leb_le. lia.
Defined.

Lemma default_registry_wf : registry_wf default_registry.
Proof.
  intros r n Hin Hid. simpl in Hin.
  destruct Hin as [<- | [<- | [<- | [<- | []]]]];
    simpl in Hid; injection Hid as <-; simpl; lia.
Defined.

Lemma substitutions_fire_in_registration_order_witness :
  dict_mem (identity (condition_key same_class default_registry
                                    (CondCallable has_scale)))
           (ASVI_SURROGATE_SUBSTITUTIONS default_registry) = false
  /\ _as_substituted_distribution
       (register_cf_substitution_rule same_class (CondCallable has_scale)
                                      (fun d => _set_name d "scaled")
                                      default_registry)
       (half_normal "sigma" (TConst 1))
     = _set_name
         (_as_substituted_distribution default_registry
                                       (half_normal "sigma" (TConst 1)))
         "scaled".
Proof.
  split; [reflexivity |].
  destruct (substitutions_fire_in_registration_order
              same_class default_registry (half_normal "sigma" (TConst 1)))
    as [_ Hlast].
  rewrite (Hlast (CondCallable has_scale) (fun d => _set_name d "scaled")
                 eq_refl).
  reflexivity.
Defined.

Lemma class_conditions_get_fresh_keys_witness :
  registry_wf default_registry
  /\ List.length
       (ASVI_SURROGATE_SUBSTITUTIONS
          (register_cf_substitution_rule
             same_class (CondClass HalfNormal_cls) (fun d => d)
             default_registry)) = 5%nat.
Proof.
  split; [exact default_registry_wf |].
  destruct (class_conditions_get_fresh_keys same_class default_registry_wf)
    as [Happend _].
  rewrite (Happend HalfNormal_cls (fun d => d)). reflexivity.
Defined.

Lemma auxiliary_generator_builds_three_layers_witness :
  let c := mk_closure (Yield false (normal "x" (TConst 0)) (fun _ => Stop))
                      None 2 (mk_base_fn (1#2) 2) (Some 0) 1%nat in
  0 < num_auxiliary_variables c
  /\ exists resume,
      posterior_generator
        split_pair
        (fun d vs g s =>
           _cf_surrogate_for_distribution default_registry split_pair zeros
                                          1 d (mk_base_fn (1#2) 2) vs 0 g s)
        c 0%nat
      = GYield
          (YPair (auxiliary_node 2 (Chain 0%nat (auxiliary_chain 2 (Some 0))))
                 (Chain 0%nat (auxiliary_chain 2 (Some 0))))
          1%nat resume.
Proof.
  intros c. split; [reflexivity |].
  exact (@auxiliary_generator_builds_three_layers
           split_pair
           (fun d vs g s =>
              _cf_surrogate_for_distribution default_registry split_pair zeros
                                             1 d (mk_base_fn (1#2) 2) vs 0 g s)
           c 0%nat false (normal "x" (TConst 0)) (fun _ => Stop)
           eq_refl eq_refl eq_refl).
Defined.

Lemma parameters_are_created_once_witness :
  exists sp vs h',
    build_cf_surrogate_posterior default_registry split_pair zeros
                                 brownian_motion 2 (1#2) (Some 0) 0%nat
    = (Ok (sp, vs), h')
    /\ objects vs = seq 0 (h' - 0)
    /\ h' = 6%nat.
Proof.
  destruct (build_cf_surrogate_posterior default_registry split_pair zeros
                                         brownian_motion 2 (1#2) (Some 0) 0%nat)
    as [[[sp vs] | e] h'] eqn:Hbuild.
  - exists sp, vs, h'. split; [reflexivity |].
    destruct (@parameters_are_created_once
                default_registry split_pair zeros brownian_motion 2 (1#2)
                (Some 0) 0%nat h' sp vs Hbuild) as [[Hobjects _] _].
    split; [exact Hobjects |].
    vm_compute in Hbuild. congruence.
  - vm_compute in Hbuild. discriminate.
Defined.

Lemma brownian_motion_leaf_chain :
  leaf_chain default_registry
             (Yield false (normal "Normal" (TConst 0)) (random_walk 4))
             (repeat [] 5).
Proof.
  repeat (apply leaf_chain_yield;
          [reflexivity | reflexivity | simpl; lia | constructor | intros ?]).
  apply leaf_chain_stop.
Defined.

Lemma brownian_motion_room : room_for 2 (repeat [] 5).
Proof.
  repeat constructor.
Defined.



(** * Further properties of the code *)

(** ** The registry *)

Lemma dict_set_twice (key : callable) (v1 v2 : distribution -> distribution)
      (items : list rule) :
  dict_set key v2 (dict_set key v1 items) = dict_set key v2 items.
Proof.
  induction items as [| [k w] rest IH]; simpl.
  - rewrite obj_id_eqb_refl. reflexivity.
  - destruct (obj_id_eqb (identity k) (identity key)) eqn:Hk; simpl;
      rewrite Hk; [reflexivity | rewrite IH; reflexivity].
Qed.

Lemma dict_set_keys (key : callable) (v : distribution -> distribution)
      (items : list rule) :
  map (fun r : rule => identity (fst r)) (dict_set key v items)
  = map (fun r : rule => identity (fst r)) items
    ++ (if dict_mem (identity key) items then [] else [identity key]).
Proof.
  induction items as [| [k w] rest IH]; simpl.
  - reflexivity.
  - destruct (obj_id_eqb (identity k) (identity key)) eqn:Hk; simpl.
    + rewrite app_nil_r. reflexivity.
    + rewrite IH. reflexivity.
Qed.

Lemma dict_get_set_other (key : callable) (v : distribution -> distribution)
      (other : obj_id) (items : list rule) :
  obj_id_eqb (identity key) other = false ->
  dict_get other (dict_set key v items) = dict_get other items.
Proof.
  intros Hother. induction items as [| [k w] rest IH]; simpl.
  - rewrite Hother. reflexivity.
  - destruct (obj_id_eqb (identity k) (identity key)) eqn:Hk; simpl.
    + assert (Hko : obj_id_eqb (identity k) other = false).
      { destruct (identity k) as [a | a], (identity key) as [b | b],
          other as [o | o]; simpl in *; try discriminate; try reflexivity;
          apply Nat.eqb_eq in Hk; subst; exact Hother. }
      rewrite Hko. reflexivity.
    + rewrite IH. reflexivity.
Qed.

(** X1.  A registration never removes or moves an entry: the keys of the
    table keep their order, at most one key is added, at the end, and
    what the table holds under every other key is unchanged. *)
Theorem registration_keeps_existing_entries
        (issubclass : dist_class -> dist_class -> bool) (reg : registry)
        (condition : condition_arg)
        (substitution_fn : distribution -> distribution) :
  let key := condition_key issubclass reg condition in
  let table := ASVI_SURROGATE_SUBSTITUTIONS reg in
  let table' :=
    ASVI_SURROGATE_SUBSTITUTIONS
      (register_cf_substitution_rule issubclass condition substitution_fn reg) in
  map (fun r : rule => identity (fst r)) table'
  = map (fun r : rule => identity (fst r)) table
    ++ (if dict_mem (identity key) table then [] else [identity key])
  /\ forall other,
      obj_id_eqb (identity key) other = false ->
      dict_get other table' = dict_get other table.
Proof.
  intros key table table'. unfold table', table, key.
  destruct condition as [cls | c]; simpl; split;
    try apply dict_set_keys; intros other Hother;
    apply dict_get_set_other; exact Hother.
Qed.

(** X2.  Registering a callable that is already registered forgets the
    function registered before: two registrations under the same
    callable leave the registry as the second alone does. *)
Theorem last_registration_wins
        (issubclass : dist_class -> dist_class -> bool) (reg : registry)
        (c : callable) (fn1 fn2 : distribution -> distribution) :
  register_cf_substitution_rule issubclass (CondCallable c) fn2
    (register_cf_substitution_rule issubclass (CondCallable c) fn1 reg)
  = register_cf_substitution_rule issubclass (CondCallable c) fn2 reg.
Proof.
  unfold register_cf_substitution_rule. simpl.
  rewrite dict_set_twice. reflexivity.
Qed.

(** X3.  A distribution that no registered condition accepts comes out
    of [_as_substituted_distribution] as it went in. *)
Theorem unmatched_distribution_is_unchanged
        (reg : registry) (d : distribution) :
  (forall r, In r (ASVI_SURROGATE_SUBSTITUTIONS reg) -> call (fst r) d = false) ->
  _as_substituted_distribution reg d = d.
Proof.
  unfold _as_substituted_distribution.
  rewrite fold_rules_apply_matching_rules.
  induction (ASVI_SURROGATE_SUBSTITUTIONS reg) as [| [cnd fn] rest IH];
    intros Hnone; simpl; [reflexivity |].
  pose proof (Hnone (cnd, fn) (or_introl eq_refl)) as Hfirst.
  simpl in Hfirst. rewrite Hfirst.
  apply IH. intros r Hr. apply Hnone. right. exact Hr.
Qed.

Lemma get_name_set_name (d : distribution) (name : string) :
  _get_name (_set_name d name) = name.
Proof. destruct d; reflexivity. Qed.

(** X4.  Whatever the substitution rules return, the node a surrogate
    is built for carries the name of the original node, and it is a
    joint distribution exactly when the substitute is. *)
Theorem substitution_preserves_name (reg : registry) (d : distribution) :
  _get_name (substituted reg d) = _get_name d
  /\ has_model_coroutine (substituted reg d)
     = has_model_coroutine (_as_substituted_distribution reg d)
  /\ event_shape_tensor (substituted reg d)
     = event_shape_tensor (_as_substituted_distribution reg d).
Proof.
  unfold substituted. split; [apply get_name_set_name |].
  destruct (_as_substituted_distribution reg d); split; reflexivity.
Qed.

(** ** How construction fails *)

Section Failures.

Variable reg : registry.
Variable split_seed : seed -> seed * seed.
Variable sample : surrogate -> seed -> value.

(** X5.  For a joint prior and [num_auxiliary_variables <= 0] (so with
    the default, 0) the call never returns a surrogate: it raises
    [RuntimeError] when the model yields nothing and [UnboundLocalError]
    otherwise, before any parameter set is constructed. *)
Theorem joint_prior_without_auxiliary_raises
        (prior : distribution) (u : bool) (name : string) (p : program)
        (k : Z) (w : Q) (seed0 : seed) (h : heap) :
  substituted reg prior = Joint u name p ->
  k <= 0 ->
  build_cf_surrogate_posterior reg split_seed sample prior k w seed0 h
  = (Raise (match p with Stop => RuntimeError | _ => UnboundLocalError end), h).
Proof.
  intros Hprior Hk. unfold build_cf_surrogate_posterior.
  change recursion_limit with (S 999).
  rewrite cf_surrogate_unfold, Hprior. cbn [has_model_coroutine].
  apply joint_harvest_without_auxiliary_raises. exact Hk.
Qed.

(** X6.  A joint prior whose model yields no node makes the call raise
    [RuntimeError], whatever the number of auxiliary variables, and
    nothing is constructed. *)
Theorem empty_model_raises
        (prior : distribution) (u : bool) (name : string)
        (k : Z) (w : Q) (seed0 : seed) (h : heap) :
  substituted reg prior = Joint u name Stop ->
  build_cf_surrogate_posterior reg split_seed sample prior k w seed0 h
  = (Raise RuntimeError, h).
Proof.
  intros Hprior. unfold build_cf_surrogate_posterior.
  change recursion_limit with (S 999).
  rewrite cf_surrogate_unfold, Hprior. cbn [has_model_coroutine].
  rewrite joint_builder_harvest_then_assemble.
  unfold bind, _extract_variables_from_coroutine_model.
  rewrite posterior_generator_empty_prior by reflexivity. reflexivity.
Qed.

(** X7.  With auxiliary variables, a joint prior whose first node is
    (after substitution) itself a joint distribution makes the call
    raise, once the parameter set of the auxiliary node has been
    constructed: [UnboundLocalError] when the inner model has a node,
    [RuntimeError] when it has none. *)
Theorem nested_first_node_raises
        (prior : distribution) (u : bool) (name : string)
        (is_root : bool) (d : distribution) (send : value -> program)
        (u' : bool) (name' : string) (p' : program)
        (k : Z) (w : Q) (seed0 : seed) (h : heap) :
  substituted reg prior = Joint u name (Yield is_root d send) ->
  substituted reg d = Joint u' name' p' ->
  0 < k ->
  build_cf_surrogate_posterior reg split_seed sample prior k w seed0 h
  = (Raise (match p' with Stop => RuntimeError | _ => UnboundLocalError end),
     S h).
Proof.
  intros Hprior Hd Hk.
  assert (Hpos : (0 <? k) = true) by (apply Z.ltb_lt; lia).
  unfold build_cf_surrogate_posterior.
  change recursion_limit with (S 999).
  rewrite cf_surrogate_unfold, Hprior. cbn [has_model_coroutine].
  rewrite joint_builder_harvest_then_assemble.
  unfold bind, _extract_variables_from_coroutine_model, posterior_generator.
  cbn [prior_coroutine flat_variables num_auxiliary_variables default_seed].
  rewrite Hpos.
  cbn -[_cf_surrogate_for_distribution].
  destruct (split_seed seed0) as [seed1 local_seed].
  cbn -[_cf_surrogate_for_distribution].
  rewrite (nested_joint_harvest_raises reg split_seed sample 998 d
             (mk_base_fn w k) _ _ (S h) Hd).
  reflexivity.
Qed.

(** X8.  A base distribution of event rank at most one passed as the
    prior together with k > 0 auxiliary variables, where k fits 32 bits
    and so does each dimension plus k: its parameter set is constructed,
    then reading the shape of the auxiliary value, which is [None],
    raises [AttributeError].  When a dimension plus k leaves the 32-bit
    range the sum wraps around to a negative number and the call raises
    [ValueError] before anything is constructed. *)
Theorem leaf_prior_with_auxiliary_raises
        (prior : distribution) (es : list Z)
        (k : Z) (w : Q) (seed0 : seed) (h : heap) :
  event_shape_tensor (substituted reg prior) = Some es ->
  (List.length es <= 1)%nat ->
  0 < k < 2147483648 ->
  (extends es k ->
   build_cf_surrogate_posterior reg split_seed sample prior k w seed0 h
   = (Raise AttributeError, S h))
  /\ (forall n, es = [n] -> 2147483648 <= n + k ->
      build_cf_surrogate_posterior reg split_seed sample prior k w seed0 h
      = (Raise ValueError, h)).
Proof.
  intros Hes Hrank Hk.
  assert (Hpos : (0 <? k) = true) by (apply Z.ltb_lt; lia).
  unfold build_cf_surrogate_posterior.
  change recursion_limit with (S 999).
  rewrite cf_surrogate_unfold, (leaf_has_no_model_coroutine _ Hes).
  unfold _cf_convex_update_for_base_distribution, bind, ret, lift, raise,
    new_Chain.
  cbn [initial_prior_weight base_num_auxiliary_variables].
  rewrite Hes, (@shape_add_fits es k) by lia.
  split.
  - intros Hext.
    rewrite !new_Reshape_valid
      by (try apply (valid_shape_sum Hrank Hext); reflexivity).
    destruct es as [| n [| m es']]; simpl in Hrank; [| | lia];
      cbn -[shape_sum int32]; rewrite Hpos; reflexivity.
  - intros n -> Hn.
    pose proof (event_shape_tensor_range _ Hes) as Hrange.
    inversion Hrange as [| ? ? Hn32 _]; subst.
    assert (Hwrap : int32 (n + k) = n + k - 4294967296).
    { unfold int32.
      replace (n + k + 2147483648)
        with (n + k - 2147483648 + 1 * 4294967296) by lia.
      rewrite Z.mod_add by lia. rewrite Z.mod_small by lia. lia. }
    unfold new_Reshape, valid_shape, shape_sum.
    cbn [map forallb]. rewrite Hwrap.
    replace (-1 <=? n + k - 4294967296) with false
      by (symmetry; apply Z.leb_gt; lia).
    reflexivity.
Qed.

End Failures.

(** X9.  In construction mode the base builder raises [TypeError] for
    every distribution whose event has rank two or more, whatever the
    other arguments, and constructs nothing. *)
Theorem base_builder_rejects_higher_rank
        (dist : distribution) (es : list Z) (w : Q) (k : Z)
        (g : option value) (seed0 : seed) (h : heap) :
  event_shape_tensor dist = Some es ->
  (2 <= List.length es)%nat ->
  _cf_convex_update_for_base_distribution dist w k g None seed0 h
  = (Raise TypeError, h).
Proof.
  intros Hes Hrank.
  unfold _cf_convex_update_for_base_distribution, bind, ret, lift, raise.
  rewrite Hes.
  destruct es as [| a [| b es']]; simpl in Hrank; try lia. reflexivity.
Qed.

Lemma chain_without_auxiliary (es : list Z) (w : Q) (s : seed) :
  (List.length es <= 1)%nat ->
  Forall (fun n => 0 <= n) es ->
  Forall (fun n => -2147483648 <= n < 2147483648) es ->
  chain_event_shape (base_chain es 0 w s) es = Some es.
Proof.
  intros Hrank Hdims Hrange.
  destruct es as [| n [| m es']]; simpl in Hrank; [| | lia].
  - reflexivity.
  - inversion Hdims; subst. inversion Hrange; subst.
    unfold chain_event_shape, base_chain, shape_sum.
    cbn [fold_right forward_event_shape map reduce_prod].
    rewrite Z.add_0_r, Z.mul_1_r, !(@int32_id n) by lia.
    rewrite reshape_flatten_vector.
    rewrite !highway_vector by reflexivity.
    apply reshape_unflatten_vector. assumption.
Qed.

(** X10.  A base distribution of event rank at most one passed as the
    prior with [num_auxiliary_variables = 0]: the call returns the prior
    (substituted, under its own name) pushed through one newly
    constructed chain, which is also what it tracks, and the surrogate
    has the event shape of the prior. *)
Theorem leaf_prior_keeps_event_shape
        (reg : registry) (split_seed : seed -> seed * seed)
        (sample : surrogate -> seed -> value)
        (prior : distribution) (es : list Z) (w : Q) (seed0 : seed) (h : heap) :
  event_shape_tensor (substituted reg prior) = Some es ->
  (List.length es <= 1)%nat ->
  Forall (fun n => 0 <= n) es ->
  exists bs,
    build_cf_surrogate_posterior reg split_seed sample prior 0 w seed0 h
    = (Ok (TransformedDistribution (Prior (substituted reg prior)) (Chain h bs),
           Chain h bs), S h)
    /\ event_shape
         (TransformedDistribution (Prior (substituted reg prior)) (Chain h bs))
       = Some (Single es).
Proof.
  intros Hes Hrank Hdims.
  exists (base_chain es 0 w seed0). split.
  - unfold build_cf_surrogate_posterior.
    change recursion_limit with (S 999).
    rewrite cf_surrogate_unfold, (leaf_has_no_model_coroutine _ Hes).
    apply base_builder_alone; [exact Hes | exact Hrank | simpl; lia |].
    pose proof (event_shape_tensor_range _ Hes) as Hrange.
    unfold extends. rewrite Forall_forall in *. intros n Hn.
    specialize (Hdims n Hn). specialize (Hrange n Hn). lia.
  - cbn [event_shape]. rewrite Hes. cbn [option_map].
    rewrite chain_without_auxiliary
      by (try assumption; exact (event_shape_tensor_range _ Hes)).
    reflexivity.
Qed.

(** ** What a successful call returns *)

(** X11.  The surrogate returned for a joint prior is a joint
    distribution of the same kind (auto-batched exactly when the prior
    is), under the name of the prior; its model walks the model of the
    prior with the number of auxiliary variables and the prior weight of
    the call, over the parameter sets the call tracks, of which there is
    at least one.  The seed of the call is not handed on: the default
    seed of the model is [None], whatever seed the call was given. *)
Theorem joint_surrogate_keeps_name_and_kind
        (reg : registry) (split_seed : seed -> seed * seed)
        (sample : surrogate -> seed -> value)
        (prior : distribution) (u : bool) (name : string) (p : program)
        (k : Z) (w : Q) (seed0 : seed) (h h' : heap)
        (sp : surrogate) (vs : variables) :
  substituted reg prior = Joint u name p ->
  build_cf_surrogate_posterior reg split_seed sample prior k w seed0 h
  = (Ok (sp, vs), h') ->
  exists c v fv,
    sp = JointDistributionCoroutine u (_get_name prior) c
    /\ vs = VarStruct (v :: fv)
    /\ flat_variables c = Some (v :: fv)
    /\ prior_coroutine c = p
    /\ num_auxiliary_variables c = k
    /\ base_distribution_surrogate_fn c = mk_base_fn w k
    /\ default_seed c = None.
Proof.
  intros Hprior Hbuild.
  assert (Hname : name = _get_name prior).
  { pose proof (get_name_set_name (_as_substituted_distribution reg prior)
                                  (_get_name prior)) as Hn.
    fold (substituted reg prior) in Hn. rewrite Hprior in Hn. exact Hn. }
  unfold build_cf_surrogate_posterior in Hbuild.
  change recursion_limit with (S 999) in Hbuild.
  rewrite cf_surrogate_unfold, Hprior in Hbuild.
  cbn [has_model_coroutine] in Hbuild.
  apply joint_harvest_objects in Hbuild.
  destruct Hbuild as [v [fv [-> [-> _]]]].
  rewrite Hname. do 3 eexists. repeat split; reflexivity.
Qed.

(** ** The walk over supplied parameter sets *)

(** X12.  A walk that reaches a node of the prior for which the supplied
    parameter sets have no entry raises [IndexError] there, whether or
    not an auxiliary value is bound. *)
Theorem walk_past_parameter_sets_raises
        (split_seed : seed -> seed * seed)
        (recur : distribution -> option variables -> option value -> seed ->
                 M (surrogate * variables))
        (c : closure) (v : variables) (fv : list variables)
        (was_root : bool) (dist : distribution) (send_prior : value -> program)
        (seed0 : seed) (i : nat) (g : option value) (h : heap) :
  flat_variables c = Some (v :: fv) ->
  (List.length (v :: fv) <= i)%nat ->
  posterior_loop split_seed recur c (Yield was_root dist send_prior)
                 seed0 i g h
  = GRaise IndexError h.
Proof.
  intros Hfv Hi. cbn [posterior_loop].
  destruct (split_seed seed0) as [seed1 init_seed].
  rewrite Hfv. unfold getitem.
  apply nth_error_None in Hi. rewrite Hi. reflexivity.
Qed.

Lemma bijector_of_cascading_flows (dist : distribution) (k : Z) (g : value)
      (vs : variables) :
  bijector_of (cascading_flows dist k g vs) = Some vs.
Proof. unfold cascading_flows. destruct (0 <? k); reflexivity. Qed.

Section Wiring.

Variable reg : registry.
Variable split_seed : seed -> seed * seed.
Variable sample : surrogate -> seed -> value.
Variable fuel : nat.
Variable c : closure.
Variable v0 : variables.
Variable fv0 : list variables.

Hypothesis supplied : flat_variables c = Some (v0 :: fv0).

Abbreviation recur5 :=
  (fun d vs g s =>
     _cf_surrogate_for_distribution reg split_seed sample (S fuel) d
       (base_distribution_surrogate_fn c) vs 0 g s).

Lemma loop_is_wired (p : program) :
  leaves reg p ->
  forall (seed_w : seed) (i : nat) (sh : list Z) (q : nat) (h : heap),
    rank_1_or_2 (Tensor sh q) = true ->
    wired (v0 :: fv0) i p
          (posterior_loop split_seed recur5 c p seed_w i
                          (Some (Tensor sh q)) h).
Proof.
  intros Hleaves.
  induction Hleaves as [| is_root d send Hleaf Hrest IH];
    intros seed_w i sh q h Hrk.
  - exists h. reflexivity.
  - cbn [posterior_loop wired].
    destruct (split_seed seed_w) as [seed1 init_seed].
    rewrite supplied. unfold getitem.
    destruct (nth_error (v0 :: fv0) i) as [vs |]; [| exists h; reflexivity].
    rewrite cf_surrogate_unfold, Hleaf.
    rewrite base_builder_reuse by (intros _; exact Hrk).
    cbn [truthy_flat].
    do 3 eexists. split; [reflexivity |]. split.
    + apply bijector_of_cascading_flows.
    + intros v v' h' Hfwd. rewrite Hfwd. apply IH. exact Hrk.
Qed.

End Wiring.


(** ** The driver of the harvest *)

Lemma extract_loop_collects
      (split_seed : seed -> seed * seed) (sample : surrogate -> seed -> value)
      (gen : generator) :
  forall (seed0 : seed) (acc fv : list variables) (h' : heap),
    extract_loop split_seed sample gen seed0 acc = (Ok fv, h') ->
    fv = acc ++ yielded_variables split_seed sample gen seed0
    /\ List.length (yielded_variables split_seed sample gen seed0)
       = List.length (yielded_nodes split_seed sample gen seed0).
Proof.
  induction gen as [h | e h | y h send IH]; intros seed0 acc fv h' Hrun.
  - simpl in Hrun. injection Hrun as <- _. simpl.
    rewrite app_nil_r. split; reflexivity.
  - discriminate.
  - destruct y as [n | n vs]; [discriminate |].
    cbn [extract_loop yielded_variables yielded_nodes yielded_node] in *.
    destruct (split_seed seed0) as [seed1 local_seed].
    apply IH in Hrun. destruct Hrun as [-> Hlen].
    rewrite <- app_assoc. simpl. split; [reflexivity |].
    f_equal. exact Hlen.
Qed.

(** X14.  What [_extract_variables_from_coroutine_model] returns is
    never empty: it holds one parameter set for each node the generator
    yielded, in the order of the yields; a generator that finishes
    without yielding makes it raise [UnboundLocalError]. *)
Theorem extract_returns_one_set_per_yield
        (split_seed : seed -> seed * seed) (sample : surrogate -> seed -> value)
        (model_fn0 : heap -> generator) (seed0 : seed) (h : heap) :
  (forall fv h',
      _extract_variables_from_coroutine_model split_seed sample model_fn0
                                              seed0 h = (Ok fv, h') ->
      fv <> []
      /\ fv = yielded_variables split_seed sample (model_fn0 h) seed0
      /\ List.length fv
         = List.length (yielded_nodes split_seed sample (model_fn0 h) seed0))
  /\ (forall h1,
         model_fn0 h = GReturn h1 ->
         _extract_variables_from_coroutine_model split_seed sample model_fn0
                                                 seed0 h
         = (Raise UnboundLocalError, h1)).
Proof.
  unfold _extract_variables_from_coroutine_model. split.
  - intros fv h' Hrun.
    destruct (model_fn0 h) as [h1 | e h1 | [n | n vs] h1 send] eqn:Hgen;
      try discriminate.
    apply extract_loop_collects in Hrun. destruct Hrun as [Hfv Hlen].
    rewrite app_nil_l in Hfv. rewrite <- Hfv in Hlen.
    split; [| split; assumption].
    rewrite Hfv. cbn [yielded_variables].
    destruct (split_seed seed0). discriminate.
  - intros h1 ->. reflexivity.
Qed.

(** ** Values sent back into the prior *)

(** X15.  For a node of scalar event, a list value whose first element
    is a tensor with a trailing axis of size one is forwarded to the
    prior as that tensor without the axis, and a trailing axis of any
    other size raises [InvalidArgumentError]; for a node whose event is
    not scalar the first element of the list is forwarded as it is. *)
Theorem list_values_are_unpacked_for_the_prior
        (d : distribution) (s : list Z) (q : nat) (rest : list value) :
  (event_shape_len d = 0%nat ->
   forwarded (PyList (Tensor (s ++ [1]) q :: rest)) d = Ok (Tensor s q)
   /\ forall x, x <> 1 ->
                forwarded (PyList (Tensor (s ++ [x]) q :: rest)) d
                = Raise InvalidArgumentError)
  /\ (event_shape_len d <> 0%nat ->
      forall v, forwarded (PyList (v :: rest)) d = Ok v).
Proof.
  split.
  - intros Hscalar. unfold forwarded. rewrite Hscalar. cbn [Nat.eqb].
    split.
    + unfold squeeze_last. rewrite rev_app_distr. cbn [rev app].
      rewrite rev_involutive. reflexivity.
    + intros x Hx. unfold squeeze_last. rewrite rev_app_distr. cbn [rev app].
      destruct x as [| [x | x |] | x]; try reflexivity. contradiction.
  - intros Hrank v. unfold forwarded.
    destruct (Nat.eqb (event_shape_len d) 0) eqn:Heq; [| reflexivity].
    apply Nat.eqb_eq in Heq. contradiction.
Qed.

(** ** Reuse mode of the base builder *)


(** ** The further properties at concrete inputs *)

Lemma registration_keeps_existing_entries_witness :
  dict_get (LambdaObj 0)
           (ASVI_SURROGATE_SUBSTITUTIONS
              (register_cf_substitution_rule
                 same_class (CondCallable has_scale) (fun d => d)
                 default_registry))
  = dict_get (LambdaObj 0) (ASVI_SURROGATE_SUBSTITUTIONS default_registry).
Proof.
  exact (proj2 (registration_keeps_existing_entries
                  same_class default_registry (CondCallable has_scale)
                  (fun d => d))
               (LambdaObj 0) eq_refl).
Defined.

Lemma unmatched_distribution_is_unchanged_witness :
  _as_substituted_distribution default_registry (normal "x" (TConst 0))
  = normal "x" (TConst 0).
Proof.
  apply unmatched_distribution_is_unchanged.
  intros r Hin. simpl in Hin.
  destruct Hin as [<- | [<- | [<- | [<- | []]]]]; reflexivity.
Defined.

Lemma joint_prior_without_auxiliary_raises_witness :
  0 <= 0
  /\ build_cf_surrogate_posterior default_registry split_pair zeros
                                  brownian_motion 0 (1#2) (Some 0) 0%nat
     = (Raise UnboundLocalError, 0%nat).
Proof.
  split; [lia |].
  exact (@joint_prior_without_auxiliary_raises
           default_registry split_pair zeros brownian_motion true "prior"
           (Yield false (normal "Normal" (TConst 0)) (random_walk 4))
           0 (1#2) (Some 0) 0%nat eq_refl ltac:(lia)).
Defined.

Lemma empty_model_raises_witness :
  build_cf_surrogate_posterior default_registry split_pair zeros
                               (Joint false "empty" Stop) 2 (1#2) (Some 0) 0%nat
  = (Raise RuntimeError, 0%nat).
Proof.
  exact (@empty_model_raises default_registry split_pair zeros
           (Joint false "empty" Stop) false "empty" 2 (1#2) (Some 0) 0%nat
           eq_refl).
Defined.

Lemma nested_first_node_raises_witness :
  0 < 2
  /\ build_cf_surrogate_posterior
       default_registry split_pair zeros
       (Joint false "outer" (Yield false brownian_motion (fun _ => Stop)))
       2 (1#2) (Some 0) 0%nat
     = (Raise UnboundLocalError, 1%nat).
Proof.
  split; [lia |].
  exact (@nested_first_node_raises
           default_registry split_pair zeros
           (Joint false "outer" (Yield false brownian_motion (fun _ => Stop)))
           false "outer" false brownian_motion (fun _ => Stop)
           true "prior"
           (Yield false (normal "Normal" (TConst 0)) (random_walk 4))
           2 (1#2) (Some 0) 0%nat eq_refl eq_refl ltac:(lia)).
Defined.

Lemma leaf_prior_with_auxiliary_raises_witness :
  (0 < 2 < 2147483648
   /\ extends [3] 2
   /\ build_cf_surrogate_posterior default_registry split_pair zeros
                                   (Leaf Normal_cls "w" [3] []) 2 (1#2)
                                   (Some 0) 0%nat
      = (Raise AttributeError, 1%nat))
  /\ (0 < 2147483647 < 2147483648
      /\ 2147483648 <= 3 + 2147483647
      /\ build_cf_surrogate_posterior default_registry split_pair zeros
                                      (Leaf Normal_cls "w" [3] []) 2147483647
                                      (1#2) (Some 0) 0%nat
         = (Raise ValueError, 0%nat)).
Proof.
  assert (Hext : extends [3] 2) by (constructor; [lia | constructor]).
  split.
  - split; [lia |]. split; [exact Hext |].
    exact (proj1 (@leaf_prior_with_auxiliary_raises
                    default_registry split_pair zeros
                    (Leaf Normal_cls "w" [3] []) [3]
                    2 (1#2) (Some 0) 0%nat eq_refl ltac:(simpl; lia)
                    ltac:(lia))
                 Hext).
  - split; [lia |]. split; [lia |].
    exact (proj2 (@leaf_prior_with_auxiliary_raises
                    default_registry split_pair zeros
                    (Leaf Normal_cls "w" [3] []) [3]
                    2147483647 (1#2) (Some 0) 0%nat eq_refl ltac:(simpl; lia)
                    ltac:(lia))
                 3 eq_refl ltac:(lia)).
Defined.

Lemma base_builder_rejects_higher_rank_witness :
  (2 <= List.length [2; 3; 4])%nat
  /\ _cf_convex_update_for_base_distribution
       (Leaf Normal_cls "w" [2; 3; 4] []) (1#2) 2 None None (Some 0) 5%nat
     = (Raise TypeError, 5%nat).
Proof.
  split; [simpl; lia |].
  exact (@base_builder_rejects_higher_rank
           (Leaf Normal_cls "w" [2; 3; 4] []) [2; 3; 4] (1#2) 2 None (Some 0)
           5%nat eq_refl ltac:(simpl; lia)).
Defined.

Lemma leaf_prior_keeps_event_shape_witness :
  exists bs,
    build_cf_surrogate_posterior default_registry split_pair zeros
                                 (Leaf Normal_cls "x" [3] []) 0 (1#2) (Some 0)
                                 0%nat
    = (Ok (TransformedDistribution
             (Prior (substituted default_registry (Leaf Normal_cls "x" [3] [])))
             (Chain 0%nat bs),
           Chain 0%nat bs), 1%nat)
    /\ event_shape
         (TransformedDistribution
            (Prior (substituted default_registry (Leaf Normal_cls "x" [3] [])))
            (Chain 0%nat bs))
       = Some (Single [3]).
Proof.
  apply (@leaf_prior_keeps_event_shape
           default_registry split_pair zeros (Leaf Normal_cls "x" [3] []) [3]
           (1#2) (Some 0) 0%nat eq_refl).
  - simpl. lia.
  - repeat constructor. lia.
Defined.

Lemma joint_surrogate_keeps_name_and_kind_witness :
  exists c v fv h',
    build_cf_surrogate_posterior default_registry split_pair zeros
                                 brownian_motion 2 (1#2) (Some 0) 0%nat
    = (Ok (JointDistributionCoroutine true "prior" c, VarStruct (v :: fv)), h')
    /\ num_auxiliary_variables c = 2
    /\ default_seed c = None.
Proof.
  destruct (build_cf_surrogate_posterior default_registry split_pair zeros
                                         brownian_motion 2 (1#2) (Some 0) 0%nat)
    as [[[sp vs] | e] h'] eqn:Hbuild.
  - destruct (@joint_surrogate_keeps_name_and_kind
                default_registry split_pair zeros brownian_motion true "prior"
                (Yield false (normal "Normal" (TConst 0)) (random_walk 4))
                2 (1#2) (Some 0) 0%nat h' sp vs eq_refl Hbuild)
      as [c [v [fv [-> [-> [_ [_ [Hk [_ Hseed]]]]]]]]].
    exists c, v, fv, h'. split; [reflexivity |]. split; [exact Hk | exact Hseed].
  - vm_compute in Hbuild. discriminate.
Defined.

Lemma walk_past_parameter_sets_raises_witness :
  let c := mk_closure (Yield false (normal "x" (TConst 0)) (fun _ => Stop))
                      (Some [Chain 0%nat []]) 2 (mk_base_fn (1#2) 2) (Some 0)
                      1%nat in
  (List.length [Chain 0%nat []] <= 1)%nat
  /\ posterior_loop
       split_pair
       (fun d vs g s =>
          _cf_surrogate_for_distribution default_registry split_pair zeros
                                         1 d (mk_base_fn (1#2) 2) vs 0 g s)
       c (Yield false (normal "x" (TConst 0)) (fun _ => Stop))
       (Some 0) 1 (Some (Tensor [2] 0%nat)) 3%nat
     = GRaise IndexError 3%nat.
Proof.
  intros c. split; [simpl; lia |].
  exact (@walk_past_parameter_sets_raises
           split_pair
           (fun d vs g s =>
              _cf_surrogate_for_distribution default_registry split_pair zeros
                                             1 d (mk_base_fn (1#2) 2) vs 0 g s)
           c (Chain 0%nat []) [] false (normal "x" (TConst 0)) (fun _ => Stop)
           (Some 0) 1%nat (Some (Tensor [2] 0%nat)) 3%nat
           eq_refl ltac:(simpl; lia)).
Defined.

Lemma random_walk_leaves (steps : nat) (v : value) :
  leaves default_registry (random_walk steps v).
Proof.
  revert v. induction steps as [| steps IH]; intros v; simpl.
  - apply leaves_stop.
  - apply leaves_yield; [reflexivity | exact IH].
Defined.


Lemma extract_returns_one_set_per_yield_witness :
  let gen := fun h : heap =>
               GYield (YPair (mk_node true (NormalDist 0 1)) (Chain h []))
                      (S h) (fun _ h' => GReturn h') in
  _extract_variables_from_coroutine_model split_pair zeros gen (Some 0) 0%nat
  = (Ok [Chain 0%nat []], 1%nat)
  /\ [Chain 0%nat []] <> [].
Proof.
  intros gen. split; [reflexivity |].
  exact (proj1 (proj1 (@extract_returns_one_set_per_yield
                         split_pair zeros gen (Some 0) 0%nat)
                      [Chain 0%nat []] 1%nat eq_refl)).
Defined.

Lemma list_values_are_unpacked_for_the_prior_witness :
  event_shape_len (normal "x" (TConst 0)) = 0%nat
  /\ forwarded (PyList [Tensor ([7] ++ [1]) 0%nat; Tensor [7; 2] 0%nat])
               (normal "x" (TConst 0))
     = Ok (Tensor [7] 0%nat).
Proof.
  split; [reflexivity |].
  exact (proj1 (proj1 (@list_values_are_unpacked_for_the_prior
                         (normal "x" (TConst 0)) [7] 0%nat
                         [Tensor [7; 2] 0%nat])
                      eq_refl)).
Defined.

